(** * JobSwipe: the deck state machine of [src/App.tsx]

    A shallow embedding of the [App] component: its state variables, the
    filter effect, the criteria reorder and toggle handlers, the two-phase
    swipe handler with its [setTimeout] callback, and the keydown listener
    that holds on to the [handleSwipe] of an earlier render.

    Modelling conventions.
    - A [string] stands for a JS string whose code units are all below
      128 ([isAscii]); every label and listing text of the source is one
      ([listings_ascii], [criteria_ascii]). On these strings
      [String.prototype.toLowerCase] is the map of A-Z to a-z, which is
      what [toLowerCase] is. Text outside that range is not modelled:
      a statement that depends on how text is lower-cased carries
      [isAscii] hypotheses on the strings it ranges over.
    - [Set<number>] is a [gset Z]; an array is a [list], read with [!!]
      where the source indexes it, so an out-of-range read is [None]
      (JS: [undefined]).
    - A handler that can throw returns [option State]; [None] is the
      uncaught [TypeError] that unmounts the component.
    - Time is a natural-number clock; every pending [setTimeout] callback
      is a [Timer] holding its due time and the variables it closed over. *)

From Stdlib Require Import ZArith Lia Ascii.
From stdpp Require Import gmap strings list.

#[local] Set Warnings "-clear-no-such-hyp".

(** ** Data model *)

Module Job.
Record t := mk {
  id : Z;
  title : string;
  company : string;
  location : string;
  type : string;
  salary : string;
  description : string;
  requirements : list string;
  imageUrl : string;
  postedDate : string
}.
End Job.

Module JobPreferences.
Record t := mk {
  minSalary : Z;
  maxDistance : Z;
  remoteOnly : bool
}.
End JobPreferences.

Module Profile.
Record t := mk {
  name : string;
  title : string;
  skills : list string;
  experience : string;
  preferredLocations : list string;
  imageUrl : string;
  jobPreferences : JobPreferences.t
}.
End Profile.

Module SearchCriteria.
Record t := mk {
  id : string;
  label : string;
  active : bool
}.
End SearchCriteria.

Definition DUMMY_JOBS : list Job.t :=
  [ Job.mk 1 "Senior Frontend Developer" "TechCorp Inc." "San Francisco, CA"
      "Permanent" "$120,000 - $180,000"
      "Looking for an experienced frontend developer with React expertise to join our dynamic team."
      [ "5+ years of React experience"; "Strong TypeScript skills";
        "Experience with modern CSS frameworks";
        "Understanding of web performance optimization" ]
      "https://images.unsplash.com/photo-1497366216548-37526070297c?auto=format&fit=crop&w=800"
      "2024-03-10";
    Job.mk 2 "UX Design Intern" "Design Studio" "Remote"
      "Internship" "$30/hour"
      "Join our creative team to design beautiful and intuitive user experiences."
      [ "Currently pursuing design degree"; "Proficiency in Figma";
        "Strong portfolio"; "Passion for user research" ]
      "https://images.unsplash.com/photo-1454165804606-c3d57bc86b40?auto=format&fit=crop&w=800"
      "2024-03-12";
    Job.mk 3 "Product Manager" "StartupX" "New York, NY"
      "Fixed-term" "$130,000 - $160,000"
      "Lead product development and strategy for our growing startup."
      [ "5+ years of product management"; "Experience in B2B SaaS";
        "Strong analytical skills"; "Excellent communication" ]
      "https://images.unsplash.com/photo-1552581234-26160f608093?auto=format&fit=crop&w=800"
      "2024-03-15";
    Job.mk 4 "DevOps Engineer" "CloudTech Solutions" "Remote"
      "Permanent" "$140,000 - $190,000"
      "Join our infrastructure team to build and maintain scalable cloud solutions."
      [ "Strong AWS experience"; "Kubernetes expertise";
        "CI/CD pipeline management"; "Infrastructure as Code" ]
      "https://images.unsplash.com/photo-1551434678-e076c223a692?auto=format&fit=crop&w=800"
      "2024-03-16" ].

Definition INITIAL_PROFILE : Profile.t :=
  Profile.mk "Alex Thompson" "Senior Software Engineer"
    [ "React"; "TypeScript"; "Node.js"; "AWS" ] "8 years"
    [ "San Francisco"; "Remote" ]
    "https://images.unsplash.com/photo-1472099645785-5658abf4ff4e?auto=format&fit=crop&w=800"
    (JobPreferences.mk 120000 50 false).

Definition INITIAL_CRITERIA : list SearchCriteria.t :=
  [ SearchCriteria.mk "permanent" "Permanent" true;
    SearchCriteria.mk "fixed-term" "Fixed-term" true;
    SearchCriteria.mk "temporary" "Temporary" true;
    SearchCriteria.mk "internship" "Internship" true ].

(** ** String and array primitives of the host language *)

(** The code units the model covers. *)
Definition isAsciiChar (c : ascii) : bool := nat_of_ascii c <? 128.

Fixpoint isAscii (s : string) : bool :=
  match s with
  | EmptyString => true
  | String c rest => isAsciiChar c && isAscii rest
  end.

(** Lower-casing of one code unit below 128: A-Z go to a-z, the others
    stay. *)
Definition lowerChar (c : ascii) : ascii :=
  let n := nat_of_ascii c in
  if (65 <=? n) && (n <=? 90) then ascii_of_nat (n + 32) else c.

(** [String.prototype.toLowerCase] on a string of code units below 128,
    where it acts on each code unit by itself. On other text the JS
    function follows the Unicode case mappings (it may change the length
    and depend on the context of a letter); no statement below is made
    about such text. *)
Fixpoint toLowerCase (s : string) : string :=
  match s with
  | EmptyString => EmptyString
  | String c rest => String (lowerChar c) (toLowerCase rest)
  end.

Fixpoint startsWith (s t : string) : bool :=
  match t, s with
  | EmptyString, _ => true
  | String _ _, EmptyString => false
  | String b t', String a s' => if Ascii.eqb a b then startsWith s' t' else false
  end.

(** [String.prototype.includes]: [t] occurs in [s] as a substring. *)
Fixpoint includes (s t : string) : bool :=
  startsWith s t ||
  match s with
  | EmptyString => false
  | String _ rest => includes rest t
  end.

(** [Array.prototype.includes] on an array of strings. *)
Definition arrayIncludes (l : list string) (x : string) : bool :=
  existsb (String.eqb x) l.

(** [Array.prototype.findIndex]: the first index whose element satisfies
    [p], or [-1]. *)
Fixpoint findIndex {A} (p : A → bool) (l : list A) : Z :=
  match l with
  | [] => (-1)%Z
  | x :: rest =>
      if p x then 0%Z
      else let i := findIndex p rest in if (i <? 0)%Z then (-1)%Z else (1 + i)%Z
  end.

(** ** The filter of the [useEffect] on [criteria], [searchTerm] and
       [profile.jobPreferences] *)

Definition activeCriteriaTypes (criteria : list SearchCriteria.t) : list string :=
  map (fun c => toLowerCase (SearchCriteria.label c))
      (List.filter (fun c => SearchCriteria.active c) criteria).

Definition matchesType (criteria : list SearchCriteria.t) (job : Job.t) : bool :=
  arrayIncludes (activeCriteriaTypes criteria) (toLowerCase (Job.type job)).

Definition matchesSearch (searchTerm : string) (job : Job.t) : bool :=
  includes (toLowerCase (Job.title job)) (toLowerCase searchTerm) ||
  includes (toLowerCase (Job.company job)) (toLowerCase searchTerm) ||
  includes (toLowerCase (Job.description job)) (toLowerCase searchTerm).

Definition matchesSalary (prefs : JobPreferences.t) (job : Job.t) : bool :=
  if includes (Job.salary job) "Remote" then true
  else if JobPreferences.remoteOnly prefs then false else true.

Definition filterJobs (jobs : list Job.t) (criteria : list SearchCriteria.t)
    (searchTerm : string) (prefs : JobPreferences.t) : list Job.t :=
  List.filter
    (fun job => matchesType criteria job && matchesSearch searchTerm job
                && matchesSalary prefs job)
    jobs.

(** ** Component state *)

Module Direction.
Inductive t := left | right.
End Direction.

(** The non-null values of [animation]. *)
Inductive Animation := swipe_left | swipe_right.

(** The state variables that [handleSwipe] reads are those of the render
    that created it: a [Closure] records them. *)
Record Closure := mkClosure {
  cl_filteredJobs : list Job.t;
  cl_currentJobIndex : nat
}.

(** A pending [setTimeout] callback of [handleSwipe]: it reads
    [filteredJobs.length] of the render that scheduled it. *)
Record Timer := mkTimer {
  due : nat;
  t_filteredJobs : list Job.t
}.

Record State := mkState {
  currentJobIndex : nat;
  animation : option Animation;
  savedJobs : gset Z;
  profile : Profile.t;
  criteria : list SearchCriteria.t;
  searchTerm : string;
  filteredJobs : list Job.t;
  (** the [handleSwipe] that the registered keydown listener calls *)
  keyListener : Closure;
  (** the clock and the scheduled callbacks, oldest first *)
  now : nat;
  timers : list Timer
}.

Definition setCurrentJobIndex (i : nat) (st : State) : State :=
  mkState i (animation st) (savedJobs st) (profile st) (criteria st)
    (searchTerm st) (filteredJobs st) (keyListener st) (now st) (timers st).

Definition setAnimation (a : option Animation) (st : State) : State :=
  mkState (currentJobIndex st) a (savedJobs st) (profile st) (criteria st)
    (searchTerm st) (filteredJobs st) (keyListener st) (now st) (timers st).

Definition setSavedJobs (s : gset Z) (st : State) : State :=
  mkState (currentJobIndex st) (animation st) s (profile st) (criteria st)
    (searchTerm st) (filteredJobs st) (keyListener st) (now st) (timers st).

Definition setProfile (p : Profile.t) (st : State) : State :=
  mkState (currentJobIndex st) (animation st) (savedJobs st) p (criteria st)
    (searchTerm st) (filteredJobs st) (keyListener st) (now st) (timers st).

Definition setCriteria (c : list SearchCriteria.t) (st : State) : State :=
  mkState (currentJobIndex st) (animation st) (savedJobs st) (profile st) c
    (searchTerm st) (filteredJobs st) (keyListener st) (now st) (timers st).

Definition setSearchTerm (s : string) (st : State) : State :=
  mkState (currentJobIndex st) (animation st) (savedJobs st) (profile st)
    (criteria st) s (filteredJobs st) (keyListener st) (now st) (timers st).

Definition setFilteredJobs (l : list Job.t) (st : State) : State :=
  mkState (currentJobIndex st) (animation st) (savedJobs st) (profile st)
    (criteria st) (searchTerm st) l (keyListener st) (now st) (timers st).

Definition setKeyListener (cl : Closure) (st : State) : State :=
  mkState (currentJobIndex st) (animation st) (savedJobs st) (profile st)
    (criteria st) (searchTerm st) (filteredJobs st) cl (now st) (timers st).

Definition setClock (t : nat) (ts : list Timer) (st : State) : State :=
  mkState (currentJobIndex st) (animation st) (savedJobs st) (profile st)
    (criteria st) (searchTerm st) (filteredJobs st) (keyListener st) t ts.

(** [setTimeout(callback, delay)] called from a render whose [filteredJobs]
    is [fj]. *)
Definition setTimeout (delay : nat) (fj : list Job.t) (st : State) : State :=
  setClock (now st) (timers st ++ [mkTimer (now st + delay) fj]) st.

(** The variables a [handleSwipe] created by the current render sees. *)
Definition closureOf (st : State) : Closure :=
  mkClosure (filteredJobs st) (currentJobIndex st).

(** The keydown effect has the dependency list [[currentJobIndex]]: the
    listener is replaced by one calling the new render's [handleSwipe]
    only when a commit changes [currentJobIndex]; [prev] is the state at
    the previous commit. *)
Definition commit (prev st : State) : State :=
  if (currentJobIndex st =? currentJobIndex prev) then st
  else setKeyListener (closureOf st) st.

(** The body of the filter effect: recompute, replace, reset the index. *)
Definition filterEffect (st : State) : State :=
  let filtered :=
    filterJobs DUMMY_JOBS (criteria st) (searchTerm st)
      (Profile.jobPreferences (profile st)) in
  setCurrentJobIndex 0 (setFilteredJobs filtered st).

(** A state update to one of the effect's dependencies: the render with
    the new value, the effect, and the render the effect causes. *)
Definition rerender (prev st : State) : State := commit prev (filterEffect st).

(** The first render and the state once both effects of the mount ran. *)
Definition firstRender : State :=
  mkState 0 None ∅ INITIAL_PROFILE INITIAL_CRITERIA "" DUMMY_JOBS
    (mkClosure DUMMY_JOBS 0) 0 [].

Definition mounted : State := rerender firstRender firstRender.

(** ** Deck cursor and swipe session *)

(** [const currentJob = filteredJobs[currentJobIndex]]. *)
Definition currentJob (st : State) : option Job.t :=
  filteredJobs st !! currentJobIndex st.

Definition animationOf (direction : Direction.t) : Animation :=
  match direction with
  | Direction.left => swipe_left
  | Direction.right => swipe_right
  end.

(** The updater [prev => new Set([...prev, id])]. *)
Definition addSaved (jobId : Z) (prev : gset Z) : gset Z :=
  list_to_set (elements prev ++ [jobId]).

(** [handleSwipe] of the render described by [cl], run in state [st].
    Reading [.id] of an out-of-range [filteredJobs[currentJobIndex]]
    throws. *)
Definition handleSwipe (cl : Closure) (direction : Direction.t)
    (st : State) : option State :=
  if length (cl_filteredJobs cl) =? 0 then Some st
  else
    let st := setAnimation (Some (animationOf direction)) st in
    st ← match direction with
         | Direction.right =>
             job ← cl_filteredJobs cl !! cl_currentJobIndex cl;
             Some (setSavedJobs (addSaved (Job.id job) (savedJobs st)) st)
         | Direction.left => Some st
         end;
    Some (setTimeout 300 (cl_filteredJobs cl) st).

(** The callback given to [setTimeout], followed by the commit it causes.
    [handleSwipe] schedules it only past its guard, so the length it
    divides by is not 0. *)
Definition timerCallback (t : Timer) (st : State) : State :=
  commit st
    (setAnimation None
       (setCurrentJobIndex
          ((currentJobIndex st + 1) mod length (t_filteredJobs t)) st)).

(** [d] time units pass: the callbacks that are due run, oldest first. *)
Definition elapse (d : nat) (st : State) : State :=
  let deadline := now st + d in
  let fired := List.filter (fun t => due t <=? deadline) (timers st) in
  let pending := List.filter (fun t => negb (due t <=? deadline)) (timers st) in
  foldl (fun s t => timerCallback t s) (setClock deadline pending st) fired.

(** The updater copies the set and deletes [jobId] from the copy. *)
Definition handleRemoveSaved (jobId : Z) (st : State) : State :=
  setSavedJobs (savedJobs st ∖ {[jobId]}) st.

(** ** Criteria list manager *)

Definition toggleCriteria (id : string) (st : State) : State :=
  rerender st
    (setCriteria
       (map (fun c =>
               if String.eqb (SearchCriteria.id c) id
               then SearchCriteria.mk (SearchCriteria.id c)
                      (SearchCriteria.label c) (negb (SearchCriteria.active c))
               else c)
            (criteria st))
       st).

(** [splice] clamps its [start] argument against the array length; a
    negative [start] counts from the end. *)
Definition spliceStart (len : nat) (start : Z) : nat :=
  Z.to_nat (if (start <? 0)%Z then Z.max (Z.of_nat len + start) 0
            else Z.min start (Z.of_nat len)).

(** [arrayMove] of [@dnd-kit/sortable], which the source imports:
<<
    const newArray = array.slice();
    newArray.splice(to < 0 ? newArray.length + to : to, 0,
                    newArray.splice(from, 1)[0]);
    return newArray;
>>
    The first argument of the outer [splice] is evaluated before the inner
    [splice] shortens the array. When the inner [splice] removes nothing
    its element [0] is [undefined], which is inserted all the same: the
    result is a list of [option]s, [None] being [undefined]. *)
Definition arrayMove {A} (array : list A) (from to : Z) : list (option A) :=
  let newArray := array in
  let target :=
    if (to <? 0)%Z then (Z.of_nat (length newArray) + to)%Z else to in
  let k := spliceStart (length newArray) from in
  let item := newArray !! k in
  let newArray := delete k newArray in
  let s := spliceStart (length newArray) target in
  (Some <$> take s newArray) ++ item :: (Some <$> drop s newArray).

(** The predicate [(item) => item.id === id] of the two [findIndex] calls. *)
Definition hasId (id : string) (item : SearchCriteria.t) : bool :=
  String.eqb (SearchCriteria.id item) id.

(** The updater that [handleDragEnd] gives to [setCriteria]. *)
Definition dragEndUpdater (activeId overId : string)
    (items : list SearchCriteria.t) : list (option SearchCriteria.t) :=
  let oldIndex := findIndex (hasId activeId) items in
  let newIndex := findIndex (hasId overId) items in
  arrayMove items oldIndex newIndex.

(** [handleDragEnd] for an event with [active.id] and a non-null [over]
    with [over.id]. With an [undefined] entry in [criteria] the filter
    effect throws on [c.active]. *)
Definition handleDragEnd (activeId overId : string) (st : State) : option State :=
  if String.eqb activeId overId then Some st
  else
    items ← mapM id (dragEndUpdater activeId overId (criteria st));
    Some (rerender st (setCriteria items st)).

(** ** The other event handlers *)

(** [onChange] of the search box. Setting a state variable to the value
    it has causes no render and no effect. *)
Definition onSearchChange (value : string) (st : State) : State :=
  if String.eqb value (searchTerm st) then st
  else rerender st (setSearchTerm value st).

(** The three [onChange] handlers of the preference inputs each build a
    new [jobPreferences] object, so the filter effect runs every time.
    The two numbers come from [parseInt]; the filter reads neither. *)
Definition withJobPreferences (jp : JobPreferences.t) (p : Profile.t) : Profile.t :=
  Profile.mk (Profile.name p) (Profile.title p) (Profile.skills p)
    (Profile.experience p) (Profile.preferredLocations p) (Profile.imageUrl p) jp.

Definition onMinSalaryChange (value : Z) (st : State) : State :=
  let jp := Profile.jobPreferences (profile st) in
  rerender st
    (setProfile
       (withJobPreferences
          (JobPreferences.mk value (JobPreferences.maxDistance jp)
             (JobPreferences.remoteOnly jp))
          (profile st))
       st).

Definition onMaxDistanceChange (value : Z) (st : State) : State :=
  let jp := Profile.jobPreferences (profile st) in
  rerender st
    (setProfile
       (withJobPreferences
          (JobPreferences.mk (JobPreferences.minSalary jp) value
             (JobPreferences.remoteOnly jp))
          (profile st))
       st).

Definition onRemoteOnlyChange (checked : bool) (st : State) : State :=
  let jp := Profile.jobPreferences (profile st) in
  rerender st
    (setProfile
       (withJobPreferences
          (JobPreferences.mk (JobPreferences.minSalary jp)
             (JobPreferences.maxDistance jp) checked)
          (profile st))
       st).

(** The keydown listener: it calls the [handleSwipe] it was registered
    with. *)
Definition handleKeyPress (key : string) (st : State) : option State :=
  if String.eqb key "ArrowLeft" then
    handleSwipe (keyListener st) Direction.left st
  else if String.eqb key "ArrowRight" then
    handleSwipe (keyListener st) Direction.right st
  else Some st.

(** The swipe buttons call the [handleSwipe] of the render on screen.
    (They are rendered only while the deck is not empty.) *)
Definition clickSwipe (direction : Direction.t) (st : State) : option State :=
  handleSwipe (closureOf st) direction st.

(** ** Runs *)

Inductive Event :=
  | ClickSwipe (direction : Direction.t)
  | KeyDown (key : string)
  | ToggleCriteria (id : string)
  | DragEnd (activeId overId : string)
  | SearchChange (value : string)
  | MinSalaryChange (value : Z)
  | MaxDistanceChange (value : Z)
  | RemoteOnlyChange (checked : bool)
  | RemoveSaved (jobId : Z)
  | Elapse (d : nat).

Definition step (e : Event) (st : State) : option State :=
  match e with
  | ClickSwipe direction => clickSwipe direction st
  | KeyDown key => handleKeyPress key st
  | ToggleCriteria id => Some (toggleCriteria id st)
  | DragEnd activeId overId => handleDragEnd activeId overId st
  | SearchChange value => Some (onSearchChange value st)
  | MinSalaryChange value => Some (onMinSalaryChange value st)
  | MaxDistanceChange value => Some (onMaxDistanceChange value st)
  | RemoteOnlyChange checked => Some (onRemoteOnlyChange checked st)
  | RemoveSaved jobId => Some (handleRemoveSaved jobId st)
  | Elapse d => Some (elapse d st)
  end.

Fixpoint run (es : list Event) (st : State) : option State :=
  match es with
  | [] => Some st
  | e :: es' => st' ← step e st; run es' st'
  end.

Definition reachable (st : State) : Prop := ∃ es, run es mounted = Some st.

(** A run of accept gestures, each by the [handleSwipe] of its own render. *)
Fixpoint acceptSwipes (cls : list Closure) (st : State) : option State :=
  match cls with
  | [] => Some st
  | cl :: cls' => st' ← handleSwipe cl Direction.right st; acceptSwipes cls' st'
  end.

(** The listing a [handleSwipe] with closure [cl] acts on. *)
Definition listingOf (cl : Closure) : option Job.t :=
  cl_filteredJobs cl !! cl_currentJobIndex cl.

(** A run of swipes by button, each given with the time that passes
    after it (any amount: the next swipe may come before or after the
    callback of this one). *)
Fixpoint swipeEach (gestures : list (Direction.t * nat)) (st : State)
    : option State :=
  match gestures with
  | [] => Some st
  | (d, wait) :: rest => st1 ← clickSwipe d st; swipeEach rest (elapse wait st1)
  end.

(** Every pending callback was scheduled under the sequence [fj], within
    the last 300 time units. *)
Definition pendingUnder (fj : list Job.t) (st : State) : Prop :=
  Forall (fun t => t_filteredJobs t = fj ∧ due t ≤ now st + 300) (timers st).

(** [x] put at index [s] of [l], the elements from [s] on shifted up. *)
Definition insertAt {A} (s : nat) (x : A) (l : list A) : list A :=
  take s l ++ x :: drop s l.

(** The identifiers of a criteria sequence, in order. *)
Definition idsOf (items : list SearchCriteria.t) : list string :=
  map SearchCriteria.id items.

(** The Saved Set after phase 1 of a swipe on [job]. *)
Definition saveOnRight (d : Direction.t) (job : Job.t) (s : gset Z) : gset Z :=
  match d with
  | Direction.right => s ∪ {[Job.id job]}
  | Direction.left => s
  end.

(** Two strings are equal up to case. *)
Definition sameIgnoringCase (a b : string) : Prop :=
  toLowerCase a = toLowerCase b.

(** Case-insensitive comparison said without lower-casing: two code
    units are the same letter when they are equal or when one is a
    capital A-Z and the other is the small letter 32 places after it. *)
Definition isUpperLetter (c : ascii) : bool :=
  (65 <=? nat_of_ascii c) && (nat_of_ascii c <=? 90).

Definition sameLetter (a b : ascii) : bool :=
  Ascii.eqb a b
  || (isUpperLetter a && (nat_of_ascii b =? nat_of_ascii a + 32))
  || (isUpperLetter b && (nat_of_ascii a =? nat_of_ascii b + 32)).

(** Two strings have the same length and the same letter at every
    position. *)
Fixpoint equalIgnoringCase (s t : string) : bool :=
  match s, t with
  | EmptyString, EmptyString => true
  | String a s', String b t' => sameLetter a b && equalIgnoringCase s' t'
  | _, _ => false
  end.

(** Every value of a code unit of the model. *)
Definition allBytes : list ascii := map ascii_of_nat (seq 0 256).

(** The texts of a listing that the filter lower-cases are modelled. *)
Definition asciiListing (job : Job.t) : Prop :=
  isAscii (Job.title job) = true
  ∧ isAscii (Job.company job) = true
  ∧ isAscii (Job.description job) = true
  ∧ isAscii (Job.type job) = true.

Definition asciiCriterion (c : SearchCriteria.t) : Prop :=
  isAscii (SearchCriteria.label c) = true.

(** ** Derived values of a render and the view switches *)

(** [const isSaved = currentJob && savedJobs.has(currentJob.id)], as the
    condition it is used for: with no current job it is falsy. *)
Definition isSaved (st : State) : bool :=
  match currentJob st with
  | Some job => bool_decide (Job.id job ∈ savedJobs st)
  | None => false
  end.

(** [const savedJobsList = DUMMY_JOBS.filter(job => savedJobs.has(job.id))]. *)
Definition savedJobsList (st : State) : list Job.t :=
  List.filter (fun job => bool_decide (Job.id job ∈ savedJobs st)) DUMMY_JOBS.

(** The three view switches are state variables of their own: only the
    three header buttons write them and only the returned markup reads
    them. *)
Record View := mkView {
  showSavedJobs : bool;
  showProfile : bool;
  showSettings : bool
}.

Definition initialView : View := mkView false false false.

Definition onProfileClick (v : View) : View := mkView false true false.

Definition onSettingsClick (v : View) : View := mkView false false true.

Definition onSavedJobsClick (v : View) : View :=
  mkView (negb (showSavedJobs v)) false false.

(** What the chain of conditionals in the returned markup shows. *)
Inductive Screen := ProfileView | SettingsView | SavedJobsView | DeckView.

Definition screen (v : View) : Screen :=
  if showProfile v then ProfileView
  else if showSettings v then SettingsView
  else if showSavedJobs v then SavedJobsView
  else DeckView.

Inductive HeaderButton := ProfileButton | SettingsButton | SavedJobsButton.

Definition click (b : HeaderButton) (v : View) : View :=
  match b with
  | ProfileButton => onProfileClick v
  | SettingsButton => onSettingsClick v
  | SavedJobsButton => onSavedJobsClick v
  end.

(** ** Predicates on states and events used in the statements *)

(** The filtered sequence is the filter of the current inputs. *)
Definition inSync (st : State) : Prop :=
  filteredJobs st
  = filterJobs DUMMY_JOBS (criteria st) (searchTerm st)
      (Profile.jobPreferences (profile st)).

(** The events that write no input of the filter. *)
Definition leavesFilter (e : Event) : bool :=
  match e with
  | ClickSwipe _ | KeyDown _ | RemoveSaved _ | Elapse _ => true
  | _ => false
  end.

(** The events that may write the Saved Set. *)
Definition maySave (e : Event) : bool :=
  match e with
  | ClickSwipe Direction.right => true
  | KeyDown key => String.eqb key "ArrowRight"
  | RemoveSaved _ => true
  | _ => false
  end.

(** The deck is at rest or in a transition whose callbacks all belong to
    the sequence on screen, with an up-to-date listener and a valid
    index. *)
Definition steady (st : State) : Prop :=
  keyListener st = closureOf st
  ∧ pendingUnder (filteredJobs st) st
  ∧ currentJobIndex st < length (filteredJobs st).

(** The identifier and label of each criterion, in order. *)
Definition facets (items : list SearchCriteria.t) : list (string * string) :=
  map (fun c => (SearchCriteria.id c, SearchCriteria.label c)) items.

(** The criteria update of [toggleCriteria]. *)
Definition toggled (id : string) (items : list SearchCriteria.t)
    : list SearchCriteria.t :=
  map (fun c =>
         if String.eqb (SearchCriteria.id c) id
         then SearchCriteria.mk (SearchCriteria.id c)
                (SearchCriteria.label c) (negb (SearchCriteria.active c))
         else c)
      items.

(** A listing is of the kind a criterion names. *)
Definition ofKind (c : SearchCriteria.t) (job : Job.t) : bool :=
  String.eqb (toLowerCase (Job.type job)) (toLowerCase (SearchCriteria.label c)).

(** Every job of a list is one of the listings. *)
Definition fromListings (jobs : list Job.t) : Prop :=
  ∀ job, job ∈ jobs → job ∈ DUMMY_JOBS.

(** What every state of a run satisfies, whatever the events were. *)
Definition wellFormed (st : State) : Prop :=
  inSync st
  ∧ facets (criteria st) ≡ₚ facets INITIAL_CRITERIA
  ∧ cl_currentJobIndex (keyListener st) = currentJobIndex st
  ∧ fromListings (cl_filteredJobs (keyListener st))
  ∧ (∀ jobId, jobId ∈ savedJobs st → jobId ∈ map Job.id DUMMY_JOBS).

(** No callback is due later than 300 time units from now, and the
    marker is set only while a callback is pending. *)
Definition settling (st : State) : Prop :=
  Forall (fun t => due t ≤ now st + 300) (timers st)
  ∧ (timers st = [] → animation st = None).

(** * Filter engine *)

Section Filter.
Implicit Types (criteria : list SearchCriteria.t) (job : Job.t).
Implicit Types (prefs : JobPreferences.t).

Lemma arrayIncludes_spec (l : list string) (x : string) :
  arrayIncludes l x = true ↔ x ∈ l.
Proof.
  unfold arrayIncludes. rewrite existsb_exists, list_elem_of_In. split.
  - intros (y & Hy & Heq). apply String.eqb_eq in Heq. by subst.
  - intros Hx. exists x. split; [done | apply String.eqb_refl].
Qed.

Lemma activeCriteriaTypes_spec criteria (s : string) :
  s ∈ activeCriteriaTypes criteria ↔
  ∃ c, c ∈ criteria ∧ SearchCriteria.active c = true
       ∧ toLowerCase (SearchCriteria.label c) = s.
Proof.
  unfold activeCriteriaTypes. rewrite list_elem_of_In, in_map_iff. split.
  - intros (c & Hc & Hin). apply filter_In in Hin as [Hin Hact].
    exists c. by rewrite list_elem_of_In.
  - intros (c & Hin & Hact & Hc). exists c. split; [done|].
    apply filter_In. by rewrite <- list_elem_of_In.
Qed.

Lemma activeCriteriaTypes_none criteria :
  Forall (fun c => SearchCriteria.active c = false) criteria →
  activeCriteriaTypes criteria = [].
Proof.
  unfold activeCriteriaTypes.
  induction 1 as [|c l Hc _ IH]; simpl; [done|]. by rewrite Hc.
Qed.

Lemma matchesSalary_spec prefs job :
  matchesSalary prefs job =
  includes (Job.salary job) "Remote" || negb (JobPreferences.remoteOnly prefs).
Proof.
  unfold matchesSalary.
  by destruct (includes _ _), (JobPreferences.remoteOnly prefs).
Qed.

Lemma filterJobs_sublist jobs criteria searchTerm prefs :
  sublist (filterJobs jobs criteria searchTerm prefs) jobs.
Proof.
  unfold filterJobs. induction jobs as [|job jobs IH]; simpl; [done|].
  destruct (_ && _); by constructor.
Qed.

(** On the modelled code units lower-casing identifies exactly the two
    cases of a letter. *)
Lemma allBytes_complete (a : ascii) : In a allBytes.
Proof.
  unfold allBytes. rewrite <- (ascii_nat_embedding a).
  apply List.in_map, List.in_seq.
  pose proof (nat_ascii_bounded a). lia.
Qed.

Lemma sameLetter_lowerChar (a b : ascii) :
  Ascii.eqb (lowerChar a) (lowerChar b) = sameLetter a b.
Proof.
  assert (H : forallb (fun a =>
                forallb (fun b =>
                  Bool.eqb (Ascii.eqb (lowerChar a) (lowerChar b))
                           (sameLetter a b)) allBytes) allBytes = true)
    by (vm_compute; reflexivity).
  rewrite List.forallb_forall in H.
  specialize (H a (allBytes_complete a)).
  rewrite List.forallb_forall in H.
  specialize (H b (allBytes_complete b)).
  by apply Bool.eqb_prop.
Qed.

Lemma equalIgnoringCase_toLowerCase (s t : string) :
  equalIgnoringCase s t = true ↔ toLowerCase s = toLowerCase t.
Proof.
  revert t. induction s as [|a s IH]; intros [|b t]; simpl; try done.
  rewrite andb_true_iff, <- sameLetter_lowerChar, Ascii.eqb_eq, IH.
  split; [by intros [-> ->] | by intros [= -> ->]].
Qed.

(** What [toLowerCase] returns, said without it: the text up to the case
    of its letters, with no capital letter left. *)
Lemma toLowerCase_spec (s : string) :
  equalIgnoringCase (toLowerCase s) s = true
  ∧ (∀ c, In c (Stdlib.Strings.String.list_ascii_of_string (toLowerCase s)) →
          isUpperLetter c = false)
  ∧ (isAscii s = true → isAscii (toLowerCase s) = true).
Proof.
  assert (Hchar : ∀ a, sameLetter (lowerChar a) a = true
                       ∧ isUpperLetter (lowerChar a) = false
                       ∧ (isAsciiChar a = true →
                          isAsciiChar (lowerChar a) = true)).
  { assert (H : forallb (fun a =>
                  sameLetter (lowerChar a) a
                  && negb (isUpperLetter (lowerChar a))
                  && implb (isAsciiChar a) (isAsciiChar (lowerChar a)))
                  allBytes = true) by (vm_compute; reflexivity).
    rewrite List.forallb_forall in H. intros a.
    specialize (H a (allBytes_complete a)).
    apply andb_true_iff in H as [H H3]. apply andb_true_iff in H as [H1 H2].
    split; [done|]. split; [by apply negb_true_iff|].
    intros Ha. by rewrite Ha in H3. }
  induction s as [|a s (IH1 & IH2 & IH3)]; [done|].
  change (toLowerCase (String a s))
    with (String (lowerChar a) (toLowerCase s)).
  destruct (Hchar a) as (H1 & H2 & H3). split; [|split].
  - simpl. by rewrite H1, IH1.
  - intros c [<-|Hin]; [done | by apply IH2].
  - simpl. rewrite !andb_true_iff. intros [Ha Hs]. auto.
Qed.

Lemma equalIgnoringCase_refl (s : string) : equalIgnoringCase s s = true.
Proof. by apply equalIgnoringCase_toLowerCase. Qed.

Lemma equalIgnoringCase_isAscii (s t : string) :
  equalIgnoringCase s t = true → isAscii t = true → isAscii s = true.
Proof.
  revert t. induction s as [|a s IH]; intros [|b t]; simpl; try done.
  rewrite !andb_true_iff. intros [Hab Hst] [Hb Ht].
  split; [|by eapply IH].
  clear -Hab Hb. unfold sameLetter, isUpperLetter, isAsciiChar in *.
  apply Nat.ltb_lt in Hb. apply Nat.ltb_lt.
  apply orb_true_iff in Hab as [Hab|H];
    [apply orb_true_iff in Hab as [Heq|H]|].
  - apply Ascii.eqb_eq in Heq. by subst.
  - apply andb_true_iff in H as [Hu He].
    apply andb_true_iff in Hu as [H1 H2].
    apply Nat.leb_le in H1. apply Nat.leb_le in H2. apply Nat.eqb_eq in He.
    lia.
  - apply andb_true_iff in H as [Hu He].
    apply andb_true_iff in Hu as [H1 H2].
    apply Nat.leb_le in H1. apply Nat.leb_le in H2. apply Nat.eqb_eq in He.
    lia.
Qed.

Lemma listings_ascii : Forall asciiListing DUMMY_JOBS.
Proof.
  unfold DUMMY_JOBS. repeat (constructor; [by vm_compute|]).
  constructor.
Qed.

Lemma criteria_ascii : Forall asciiCriterion INITIAL_CRITERIA.
Proof.
  unfold INITIAL_CRITERIA. repeat (constructor; [by vm_compute|]).
  constructor.
Qed.

(** C5. For criteria labels and an employment kind of modelled text
    (code units below 128, as all of the source are), a listing passes
    the type filter exactly when some active criterion has a label that
    is the employment kind up to the case of its letters: the same
    length, and at each position the same code unit or the capital and
    the small form of one letter. When no criterion is active no listing
    passes and the filtered sequence is empty whatever the listings, the
    search term and the preferences are. *)
Theorem matchesType_iff criteria job :
  (Forall asciiCriterion criteria →
   isAscii (Job.type job) = true →
   (matchesType criteria job = true ↔
    ∃ c, c ∈ criteria ∧ SearchCriteria.active c = true
         ∧ equalIgnoringCase (SearchCriteria.label c) (Job.type job) = true))
  ∧ (Forall (fun c => SearchCriteria.active c = false) criteria →
     matchesType criteria job = false
     ∧ ∀ jobs searchTerm prefs,
         filterJobs jobs criteria searchTerm prefs = []).
Proof.
  split.
  - intros _ _. unfold matchesType.
    rewrite arrayIncludes_spec, activeCriteriaTypes_spec.
    split; intros (c & Hin & Hact & Hc); exists c; (split; [done|]);
      (split; [done|]).
    + apply equalIgnoringCase_toLowerCase. by rewrite Hc.
    + by apply equalIgnoringCase_toLowerCase in Hc.
  - intros Hnone.
    assert (Hno : ∀ j, matchesType criteria j = false).
    { intros j. unfold matchesType.
      by rewrite (activeCriteriaTypes_none _ Hnone). }
    split; [apply Hno|]. intros jobs searchTerm prefs. unfold filterJobs.
    induction jobs as [|j jobs IH]; simpl; [done|]. by rewrite Hno.
Qed.

Lemma matchesType_iff_witness :
  matchesType INITIAL_CRITERIA
    (Job.mk 9 "t" "c" "l" "PERMANENT" "s" "d" [] "i" "p") = true
  ∧ ¬ (∃ c, c ∈ INITIAL_CRITERIA ∧ SearchCriteria.active c = true
            ∧ equalIgnoringCase (SearchCriteria.label c) "Contract" = true)
  ∧ matchesType INITIAL_CRITERIA
      (Job.mk 9 "t" "c" "l" "Contract" "s" "d" [] "i" "p") = false
  ∧ matchesType (map (fun c => SearchCriteria.mk (SearchCriteria.id c)
                                 (SearchCriteria.label c) false)
                     INITIAL_CRITERIA)
                (Job.mk 9 "t" "c" "l" "PERMANENT" "s" "d" [] "i" "p") = false
  ∧ filterJobs DUMMY_JOBS
      (map (fun c => SearchCriteria.mk (SearchCriteria.id c)
                       (SearchCriteria.label c) false)
           INITIAL_CRITERIA)
      "" (JobPreferences.mk 120000 50 false) = [].
Proof.
  split; [|split; [|split]].
  - destruct (matchesType_iff INITIAL_CRITERIA
                (Job.mk 9 "t" "c" "l" "PERMANENT" "s" "d" [] "i" "p"))
      as [H _].
    apply H; [apply criteria_ascii | reflexivity |].
    exists (SearchCriteria.mk "permanent" "Permanent" true).
    split; [apply list_elem_of_here|]. split; reflexivity.
  - destruct (matchesType_iff INITIAL_CRITERIA
                (Job.mk 9 "t" "c" "l" "Contract" "s" "d" [] "i" "p"))
      as [H _].
    intros Hex. apply H in Hex; [|apply criteria_ascii | reflexivity].
    vm_compute in Hex. discriminate.
  - reflexivity.
  - destruct (matchesType_iff
                (map (fun c => SearchCriteria.mk (SearchCriteria.id c)
                                 (SearchCriteria.label c) false)
                     INITIAL_CRITERIA)
                (Job.mk 9 "t" "c" "l" "PERMANENT" "s" "d" [] "i" "p"))
      as [_ H].
    destruct H as [H1 H2].
    + repeat constructor.
    + split; [exact H1 | apply H2].
Defined.

(** C2, at the input where the code departs from it. With the
    remote-only preference off every listing passes. With it on, a
    listing passes exactly when its compensation text contains "Remote";
    the location is never read: the internship listing, whose location is
    "Remote", is rejected, and so is every listing of the source. *)
Theorem remoteOnly_rejects_remote_location :
  (∀ job minSalary maxDistance,
     matchesSalary (JobPreferences.mk minSalary maxDistance false) job = true)
  ∧ (∀ job minSalary maxDistance,
       matchesSalary (JobPreferences.mk minSalary maxDistance true) job
       = includes (Job.salary job) "Remote")
  ∧ ∃ job,
      DUMMY_JOBS !! 1 = Some job
      ∧ Job.location job = "Remote"
      ∧ Job.salary job = "$30/hour"
      ∧ matchesSalary (JobPreferences.mk 120000 50 true) job = false
      ∧ filterJobs DUMMY_JOBS INITIAL_CRITERIA ""
          (JobPreferences.mk 120000 50 true) = [].
Proof.
  split; [|split].
  - intros job a b. rewrite matchesSalary_spec. simpl. apply orb_true_r.
  - intros job a b. rewrite matchesSalary_spec. simpl. apply orb_false_r.
  - eexists. repeat split; vm_compute; reflexivity.
Qed.

End Filter.

(** * Saved set *)

Section SavedSet.
Implicit Types (st : State) (cl : Closure) (s : gset Z).

Lemma addSaved_union jobId s : addSaved jobId s = s ∪ {[jobId]}.
Proof.
  unfold addSaved. rewrite list_to_set_app_L, list_to_set_elements_L.
  simpl. by rewrite (right_id_L ∅ (∪)).
Qed.

Lemma addSaved_member jobId s : jobId ∈ s → addSaved jobId s = s.
Proof. rewrite addSaved_union. set_solver. Qed.

Lemma count_saved jobId s :
  jobId ∈ s → count_occ Z.eq_dec (elements s) jobId = 1.
Proof.
  intros Hin. apply NoDup_count_occ'.
  - apply NoDup_ListNoDup, NoDup_elements.
  - by apply list_elem_of_In, elem_of_elements.
Qed.

Lemma listingOf_nonempty cl job :
  listingOf cl = Some job → (length (cl_filteredJobs cl) =? 0) = false.
Proof.
  unfold listingOf. destruct (cl_filteredJobs cl); [|done].
  by rewrite lookup_nil.
Qed.

(** What an accept gesture does when the render's index is in range. *)
Lemma handleSwipe_right cl job st :
  listingOf cl = Some job →
  handleSwipe cl Direction.right st =
  Some (setTimeout 300 (cl_filteredJobs cl)
          (setSavedJobs (addSaved (Job.id job) (savedJobs st))
             (setAnimation (Some swipe_right) st))).
Proof.
  intros Hjob. unfold handleSwipe.
  rewrite (listingOf_nonempty _ _ Hjob).
  unfold listingOf in Hjob. by rewrite Hjob.
Qed.

Lemma handleSwipe_left cl st :
  cl_filteredJobs cl ≠ [] →
  handleSwipe cl Direction.left st =
  Some (setTimeout 300 (cl_filteredJobs cl)
          (setAnimation (Some swipe_left) st)).
Proof.
  intros Hne. unfold handleSwipe. by destruct (cl_filteredJobs cl).
Qed.

Lemma acceptSwipes_saved jobId cls st :
  Forall (fun cl => ∃ job, listingOf cl = Some job ∧ Job.id job = jobId) cls →
  ∃ st', acceptSwipes cls st = Some st'
         ∧ savedJobs st' = if cls is [] then savedJobs st
                           else savedJobs st ∪ {[jobId]}.
Proof.
  intros Hall. revert st.
  induction Hall as [|cl cls (job & Hjob & Hid) _ IH]; intros st; simpl.
  - by exists st.
  - rewrite (handleSwipe_right _ _ _ Hjob). simpl.
    destruct (IH (setTimeout 300 (cl_filteredJobs cl)
                    (setSavedJobs (addSaved (Job.id job) (savedJobs st))
                       (setAnimation (Some swipe_right) st))))
      as (st' & Hrun & Hsaved).
    exists st'. split; [done|]. rewrite Hsaved. simpl.
    rewrite addSaved_union, Hid. destruct cls; [done | set_solver].
Qed.

(** C8. An accept gesture on a listing whose identifier is already saved
    leaves the Saved Set as it is, and after any positive number of
    accept gestures on listings with one identifier the Saved Set holds
    that identifier exactly once. *)
Theorem save_idempotent jobId cls st :
  Forall (fun cl => ∃ job, listingOf cl = Some job ∧ Job.id job = jobId) cls →
  ∃ st', acceptSwipes cls st = Some st'
         ∧ (jobId ∈ savedJobs st → savedJobs st' = savedJobs st)
         ∧ (cls ≠ [] →
            savedJobs st' = savedJobs st ∪ {[jobId]}
            ∧ count_occ Z.eq_dec (elements (savedJobs st')) jobId = 1).
Proof.
  intros Hall. destruct (acceptSwipes_saved _ _ st Hall) as (st' & Hrun & Hs).
  exists st'. split; [done|]. split.
  - intros Hin. rewrite Hs. destruct cls; [done | set_solver].
  - intros Hne. destruct cls; [done|]. split; [done|].
    apply count_saved. rewrite Hs. set_solver.
Qed.

Lemma save_idempotent_witness :
  ∃ st', acceptSwipes [closureOf mounted; closureOf mounted] mounted = Some st'
         ∧ count_occ Z.eq_dec (elements (savedJobs st')) 1%Z = 1.
Proof.
  destruct (save_idempotent 1 [closureOf mounted; closureOf mounted] mounted)
    as (st' & Hrun & _ & Hcount).
  - repeat constructor; eexists; (split; [vm_compute; reflexivity|reflexivity]).
  - exists st'. split; [exact Hrun|]. by apply Hcount.
Defined.

(** C10. [handleRemoveSaved] changes the Saved Set and nothing else. *)
Theorem handleRemoveSaved_frame jobId st :
  savedJobs (handleRemoveSaved jobId st) = savedJobs st ∖ {[jobId]}
  ∧ filteredJobs (handleRemoveSaved jobId st) = filteredJobs st
  ∧ currentJobIndex (handleRemoveSaved jobId st) = currentJobIndex st
  ∧ animation (handleRemoveSaved jobId st) = animation st
  ∧ criteria (handleRemoveSaved jobId st) = criteria st
  ∧ searchTerm (handleRemoveSaved jobId st) = searchTerm st
  ∧ profile (handleRemoveSaved jobId st) = profile st
  ∧ keyListener (handleRemoveSaved jobId st) = keyListener st
  ∧ now (handleRemoveSaved jobId st) = now st
  ∧ timers (handleRemoveSaved jobId st) = timers st.
Proof. by repeat split. Qed.

Lemma handleRemoveSaved_absent jobId st :
  jobId ∉ savedJobs st → handleRemoveSaved jobId st = st.
Proof.
  intros Hnot. unfold handleRemoveSaved.
  replace (savedJobs st ∖ {[jobId]}) with (savedJobs st) by set_solver.
  by destruct st.
Qed.

End SavedSet.

(** * Deck cursor and swipe session *)

Section Deck.
Implicit Types (st : State) (cl : Closure) (t : Timer).
Implicit Types (d : Direction.t).

(** A commit replaces at most the keydown listener. *)
Lemma commit_fields prev st :
  currentJobIndex (commit prev st) = currentJobIndex st
  ∧ animation (commit prev st) = animation st
  ∧ savedJobs (commit prev st) = savedJobs st
  ∧ filteredJobs (commit prev st) = filteredJobs st
  ∧ now (commit prev st) = now st
  ∧ timers (commit prev st) = timers st.
Proof. unfold commit. by destruct (_ =? _). Qed.

Lemma timerCallback_fields t st :
  currentJobIndex (timerCallback t st)
    = (currentJobIndex st + 1) mod length (t_filteredJobs t)
  ∧ animation (timerCallback t st) = None
  ∧ savedJobs (timerCallback t st) = savedJobs st
  ∧ filteredJobs (timerCallback t st) = filteredJobs st
  ∧ now (timerCallback t st) = now st
  ∧ timers (timerCallback t st) = timers st.
Proof. unfold timerCallback, commit. by destruct (_ =? _). Qed.

(** The filter effect resets the cursor, whatever it was. *)
Lemma rerender_resets prev st :
  currentJobIndex (rerender prev st) = 0
  ∧ filteredJobs (rerender prev st)
    = filterJobs DUMMY_JOBS (criteria st) (searchTerm st)
        (Profile.jobPreferences (profile st)).
Proof. unfold rerender, commit. by destruct (_ =? _). Qed.

Lemma currentJob_none st : filteredJobs st = [] → currentJob st = None.
Proof. unfold currentJob. intros ->. apply lookup_nil. Qed.

(** The guard of [handleSwipe] looks at the sequence of its own render. *)
Lemma handleSwipe_guard cl d st :
  cl_filteredJobs cl = [] → handleSwipe cl d st = Some st.
Proof. unfold handleSwipe. by intros ->. Qed.

(** ** Running the clock over one or two pending callbacks *)

Lemma elapse_one_pending st t n :
  timers st = [t] → now st + n < due t →
  elapse n st = setClock (now st + n) [t] st.
Proof.
  intros Ht Hlt. unfold elapse. rewrite Ht. simpl.
  by rewrite (proj2 (Nat.leb_gt _ _) Hlt).
Qed.

Lemma elapse_one_due st t n :
  timers st = [t] → due t ≤ now st + n →
  elapse n st = timerCallback t (setClock (now st + n) [] st).
Proof.
  intros Ht Hle. unfold elapse. rewrite Ht. simpl.
  by rewrite (proj2 (Nat.leb_le _ _) Hle).
Qed.

Lemma elapse_two_first st t1 t2 n :
  timers st = [t1; t2] → due t1 ≤ now st + n → now st + n < due t2 →
  elapse n st = timerCallback t1 (setClock (now st + n) [t2] st).
Proof.
  intros Ht Hle Hlt. unfold elapse. rewrite Ht. simpl.
  by rewrite (proj2 (Nat.leb_le _ _) Hle), (proj2 (Nat.leb_gt _ _) Hlt).
Qed.

Lemma elapse_two_due st t1 t2 n :
  timers st = [t1; t2] → due t1 ≤ now st + n → due t2 ≤ now st + n →
  elapse n st
  = timerCallback t2 (timerCallback t1 (setClock (now st + n) [] st)).
Proof.
  intros Ht H1 H2. unfold elapse. rewrite Ht. simpl.
  by rewrite (proj2 (Nat.leb_le _ _) H1), (proj2 (Nat.leb_le _ _) H2).
Qed.

(** ** One gesture by button *)

Lemma clickSwipe_phase1 d st job :
  currentJob st = Some job →
  ∃ st1, clickSwipe d st = Some st1
    ∧ animation st1 = Some (animationOf d)
    ∧ savedJobs st1 = saveOnRight d job (savedJobs st)
    ∧ currentJobIndex st1 = currentJobIndex st
    ∧ filteredJobs st1 = filteredJobs st
    ∧ now st1 = now st
    ∧ timers st1 = timers st ++ [mkTimer (now st + 300) (filteredJobs st)].
Proof.
  intros Hjob. unfold clickSwipe. destruct d.
  - rewrite handleSwipe_left.
    + eexists. split; [done|]. by repeat split.
    + simpl. intros Hnil. by rewrite (currentJob_none _ Hnil) in Hjob.
  - rewrite (handleSwipe_right _ job) by done.
    eexists. split; [done|]. simpl. rewrite addSaved_union. by repeat split.
Qed.

(** One swipe from rest and the settle delay after it. *)
Lemma swipe_settles d st job :
  timers st = [] → currentJob st = Some job →
  ∃ st1, clickSwipe d st = Some st1
    ∧ timers (elapse 300 st1) = []
    ∧ filteredJobs (elapse 300 st1) = filteredJobs st
    ∧ currentJobIndex (elapse 300 st1)
      = (currentJobIndex st + 1) mod length (filteredJobs st)
    ∧ animation (elapse 300 st1) = None
    ∧ savedJobs (elapse 300 st1) = saveOnRight d job (savedJobs st).
Proof.
  intros Hidle Hjob.
  destruct (clickSwipe_phase1 d st job Hjob)
    as (st1 & Hrun & Hanim & Hsaved & Hidx & Hfj & Hnow & Htimers).
  rewrite Hidle in Htimers. simpl in Htimers.
  exists st1. split; [done|].
  rewrite (elapse_one_due _ _ _ Htimers) by (simpl; lia).
  destruct (timerCallback_fields (mkTimer (now st + 300) (filteredJobs st))
              (setClock (now st1 + 300) [] st1))
    as (-> & -> & -> & -> & _ & ->).
  simpl. by rewrite Hidx, Hfj, Hsaved.
Qed.

(** C6, as amended. In a state at rest (no deferred advance pending)
    whose index is within the filtered sequence, a swipe to the right by
    button adds the identifier of the item on screen to the Saved Set at
    once, with the clock and the cursor where they were; nothing changes
    before 300 time units have passed; when they have, the cursor is at
    (index + 1) mod length and the transition marker is none. *)
Theorem accept_swipe_two_phases st :
  timers st = [] →
  currentJobIndex st < length (filteredJobs st) →
  ∃ job st1,
    currentJob st = Some job
    ∧ clickSwipe Direction.right st = Some st1
    ∧ now st1 = now st
    ∧ savedJobs st1 = savedJobs st ∪ {[Job.id job]}
    ∧ animation st1 = Some swipe_right
    ∧ currentJobIndex st1 = currentJobIndex st
    ∧ (∀ n, n < 300 →
         Job.id job ∈ savedJobs (elapse n st1)
         ∧ currentJobIndex (elapse n st1) = currentJobIndex st
         ∧ animation (elapse n st1) = Some swipe_right)
    ∧ currentJobIndex (elapse 300 st1)
      = (currentJobIndex st + 1) mod length (filteredJobs st)
    ∧ animation (elapse 300 st1) = None
    ∧ savedJobs (elapse 300 st1) = savedJobs st ∪ {[Job.id job]}.
Proof.
  intros Hidle Hidx.
  destruct (lookup_lt_is_Some_2 _ _ Hidx) as [job Hjob].
  destruct (clickSwipe_phase1 Direction.right st job Hjob)
    as (st1 & Hrun & Hanim & Hsaved & Hcur & Hfj & Hnow & Htimers).
  destruct (swipe_settles Direction.right st job Hidle Hjob)
    as (st1' & Hrun' & _ & _ & Hadv & Hclear & Hkept).
  assert (st1' = st1) as -> by congruence.
  exists job, st1. repeat split; try done.
  all: rewrite Hidle in Htimers; simpl in Htimers.
  all: rewrite (elapse_one_pending _ _ _ Htimers) by (simpl; lia); simpl.
  - rewrite Hsaved. simpl. set_solver.
  - done.
  - done.
Qed.

Lemma accept_swipe_two_phases_witness :
  ∃ st1, clickSwipe Direction.right mounted = Some st1
         ∧ currentJobIndex (elapse 300 st1) = 1
         ∧ animation (elapse 300 st1) = None.
Proof.
  destruct (accept_swipe_two_phases mounted)
    as (job & st1 & _ & Hrun & _ & _ & _ & _ & _ & Hadv & Hclear & _).
  - reflexivity.
  - vm_compute. lia.
  - exists st1. split; [exact Hrun|]. split; [exact Hadv | exact Hclear].
Defined.

(** C6 as stated fails in a state that still has a deferred advance
    pending: 100 time units after a first swipe the deck is not empty, a
    swipe to the right saves item 1 at once, and once its 300 time units
    have passed the cursor has moved by two, not by one. *)
Lemma accept_swipe_advances_twice :
  ∃ st st1,
    run [ClickSwipe Direction.left; Elapse 100] mounted = Some st
    ∧ length (filteredJobs st) = 4
    ∧ currentJobIndex st = 0
    ∧ clickSwipe Direction.right st = Some st1
    ∧ elements (savedJobs st1) = [1%Z]
    ∧ currentJobIndex (elapse 300 st1) = 2
    ∧ (currentJobIndex st + 1) mod length (filteredJobs st) = 1.
Proof.
  eexists. eexists. split; [vm_compute; reflexivity|].
  split; [reflexivity|]. split; [reflexivity|].
  split; [vm_compute; reflexivity|].
  repeat split; vm_compute; reflexivity.
Qed.

(** ** Any number of pending callbacks *)

Lemma callbacks_advance (fj : list Job.t) ts :
  ∀ st, Forall (fun t => t_filteredJobs t = fj) ts →
    currentJobIndex st < length fj →
    currentJobIndex (foldl (fun s t => timerCallback t s) st ts)
      = (currentJobIndex st + length ts) mod length fj
    ∧ filteredJobs (foldl (fun s t => timerCallback t s) st ts)
      = filteredJobs st
    ∧ now (foldl (fun s t => timerCallback t s) st ts) = now st
    ∧ timers (foldl (fun s t => timerCallback t s) st ts) = timers st.
Proof.
  induction ts as [|t ts IH]; intros st Hall Hidx; simpl.
  - rewrite Nat.add_0_r. repeat split. symmetry. by apply Nat.mod_small.
  - apply Forall_cons in Hall as [Ht Hall].
    destruct (timerCallback_fields t st) as (Hi & _ & _ & Hfj & Hnow & Hts).
    destruct (IH (timerCallback t st) Hall) as (-> & -> & -> & ->).
    { rewrite Hi, Ht. apply Nat.mod_upper_bound. lia. }
    rewrite Hi, Ht, Nat.Div0.add_mod_idemp_l. repeat split; try done.
    f_equal. lia.
Qed.

Lemma filter_due_length deadline ts :
  length (List.filter (fun t => due t <=? deadline) ts)
  + length (List.filter (fun t => negb (due t <=? deadline)) ts)
  = length ts.
Proof.
  induction ts as [|t ts IH]; simpl; [done|].
  destruct (due t <=? deadline); simpl; lia.
Qed.

Lemma filter_all_due deadline ts :
  Forall (fun t => due t ≤ deadline) ts →
  List.filter (fun t => negb (due t <=? deadline)) ts = [].
Proof.
  induction 1 as [|t ts Hdue _ IH]; simpl; [done|].
  by rewrite (proj2 (Nat.leb_le _ _) Hdue).
Qed.

(** Letting time pass moves the cursor once per callback that fires. *)
Lemma elapse_advances fj n st :
  pendingUnder fj st → currentJobIndex st < length fj →
  pendingUnder fj (elapse n st)
  ∧ filteredJobs (elapse n st) = filteredJobs st
  ∧ currentJobIndex (elapse n st) < length fj
  ∧ (currentJobIndex (elapse n st) + length (timers (elapse n st)))
      mod length fj
    = (currentJobIndex st + length (timers st)) mod length fj
  ∧ (300 ≤ n → timers (elapse n st) = []).
Proof.
  intros Hpend Hidx. unfold elapse.
  set (fired := List.filter (fun t => due t <=? now st + n) (timers st)).
  set (pending :=
         List.filter (fun t => negb (due t <=? now st + n)) (timers st)).
  assert (Hfired : Forall (fun t => t_filteredJobs t = fj) fired).
  { apply Forall_forall. intros t Hin.
    apply list_elem_of_In, filter_In in Hin as [Hin _].
    apply list_elem_of_In in Hin.
    by apply (proj1 (Forall_forall _ _) Hpend t). }
  destruct (callbacks_advance fj fired
              (setClock (now st + n) pending st) Hfired Hidx)
    as (Hi & Hfj & Hnow & Hts).
  simpl in Hi, Hfj, Hnow, Hts.
  split; [|split; [done|split; [|split]]].
  - unfold pendingUnder. rewrite Hts, Hnow.
    apply Forall_forall. intros t Hin.
    apply list_elem_of_In, filter_In in Hin as [Hin _].
    apply list_elem_of_In in Hin.
    destruct (proj1 (Forall_forall _ _) Hpend t Hin). split; [done | lia].
  - rewrite Hi. apply Nat.mod_upper_bound. lia.
  - rewrite Hi, Hts, Nat.Div0.add_mod_idemp_l. f_equal.
    pose proof (filter_due_length (now st + n) (timers st)).
    fold fired pending in H. lia.
  - intros Hn. rewrite Hts. apply filter_all_due.
    apply Forall_forall. intros t Hin.
    destruct (proj1 (Forall_forall _ _) Hpend t Hin). lia.
Qed.

Lemma swipeEach_total fj gestures :
  ∀ st, filteredJobs st = fj → pendingUnder fj st →
    currentJobIndex st < length fj →
    ∃ st', swipeEach gestures st = Some st'
      ∧ filteredJobs st' = fj ∧ pendingUnder fj st'
      ∧ currentJobIndex st' < length fj
      ∧ (currentJobIndex st' + length (timers st')) mod length fj
        = (currentJobIndex st + length (timers st) + length gestures)
            mod length fj.
Proof.
  induction gestures as [|[d wait] rest IH]; intros st Hfj Hpend Hidx; simpl.
  - exists st. rewrite Nat.add_0_r. by repeat split.
  - rewrite <- Hfj in Hidx.
    destruct (lookup_lt_is_Some_2 _ _ Hidx) as [job Hjob].
    destruct (clickSwipe_phase1 d st job Hjob)
      as (st1 & -> & _ & _ & Hcur & Hfj1 & Hnow & Hts). simpl.
    assert (Hpend1 : pendingUnder fj st1).
    { unfold pendingUnder. rewrite Hts, Hnow. apply Forall_app. split.
      - done.
      - apply Forall_singleton. simpl. split; [done | lia]. }
    rewrite Hfj, <- Hcur in Hidx.
    destruct (elapse_advances fj wait st1 Hpend1 Hidx)
      as (Hpend2 & Hfj2 & Hidx2 & Hsum & _).
    destruct (IH (elapse wait st1)) as (st' & -> & Hfj' & Hpend' & Hidx' & Hs).
    { congruence. } { done. } { done. }
    exists st'. repeat split; try done.
    rewrite Hs, <- Nat.Div0.add_mod_idemp_l, Hsum, Nat.Div0.add_mod_idemp_l.
    rewrite Hts, length_app, Hcur. simpl. f_equal. lia.
Qed.

(** Swipes by button go round the deck. With the filtered sequence
    fixed, of length N > 0, and the deck at rest on a valid index, a
    swipe by button in either direction followed by the settle delay
    puts the index at (index + 1) mod N; and after N swipes by button,
    however they are spaced in time, and the settle delay of the last
    one, the index is back where it was. *)
Lemma deck_is_circular st gestures :
  timers st = [] →
  currentJobIndex st < length (filteredJobs st) →
  (∀ d, ∃ st1, clickSwipe d st = Some st1
      ∧ filteredJobs (elapse 300 st1) = filteredJobs st
      ∧ currentJobIndex (elapse 300 st1)
        = (currentJobIndex st + 1) mod length (filteredJobs st))
  ∧ (length gestures = length (filteredJobs st) →
     ∃ st', swipeEach gestures st = Some st'
       ∧ filteredJobs (elapse 300 st') = filteredJobs st
       ∧ timers (elapse 300 st') = []
       ∧ currentJobIndex (elapse 300 st') = currentJobIndex st).
Proof.
  intros Hidle Hidx. split.
  - intros d. destruct (lookup_lt_is_Some_2 _ _ Hidx) as [job Hjob].
    destruct (swipe_settles d st job Hidle Hjob)
      as (st1 & Hrun & _ & Hfj & Hadv & _).
    by exists st1.
  - intros Hlen.
    destruct (swipeEach_total (filteredJobs st) gestures st)
      as (st' & Hrun & Hfj & Hpend & Hidx' & Hsum); [done| |done|].
    { unfold pendingUnder. rewrite Hidle. constructor. }
    destruct (elapse_advances (filteredJobs st) 300 st' Hpend Hidx')
      as (_ & Hfj' & Hlt & Hsum' & Hnone).
    exists st'. split; [done|]. split; [congruence|].
    split; [by apply Hnone|].
    rewrite Hnone in Hsum' by done. simpl in Hsum'.
    rewrite Nat.add_0_r, (Nat.mod_small _ _ Hlt) in Hsum'.
    rewrite Hsum', Hsum, Hidle, Hlen. simpl. rewrite Nat.add_0_r.
    rewrite <- (Nat.mul_1_l (length (filteredJobs st))) at 1.
    rewrite Nat.Div0.mod_add. by apply Nat.mod_small.
Qed.

Lemma deck_is_circular_witness :
  ∃ st',
    swipeEach [(Direction.right, 300); (Direction.left, 20);
               (Direction.left, 700); (Direction.right, 0)] mounted
      = Some st'
    ∧ currentJobIndex (elapse 300 st') = 0.
Proof.
  destruct (deck_is_circular mounted
              [(Direction.right, 300); (Direction.left, 20);
               (Direction.left, 700); (Direction.right, 0)])
    as [_ Hcycle].
  - reflexivity.
  - vm_compute. lia.
  - destruct Hcycle as (st' & Hrun & _ & _ & Hi); [reflexivity|].
    exists st'. split; [exact Hrun | exact Hi].
Defined.

(** C3, as amended. Nothing cancels a scheduled callback. In a state
    with no deferred advance pending and an index within the filtered
    sequence, when a first swipe by button is followed [gap] < 300 time
    units later by a second swipe by button, phase 1 of both calls runs
    (on the same item, the cursor not having moved yet); when [gap] > 0
    the first call's callback advances the cursor and clears the marker
    at its own due time, 300 - [gap] after the second swipe, while the
    second callback is still pending; and 300 after the second swipe the
    cursor has advanced twice, modulo the length of the sequence, the
    marker is clear and nothing is pending. *)
Theorem overlapping_swipes_both_advance st d1 d2 gap :
  timers st = [] →
  currentJobIndex st < length (filteredJobs st) →
  gap < 300 →
  ∃ job st1 st2,
    currentJob st = Some job
    ∧ clickSwipe d1 st = Some st1
    ∧ clickSwipe d2 (elapse gap st1) = Some st2
    ∧ animation st1 = Some (animationOf d1)
    ∧ savedJobs st1 = saveOnRight d1 job (savedJobs st)
    ∧ animation st2 = Some (animationOf d2)
    ∧ savedJobs st2 = saveOnRight d2 job (saveOnRight d1 job (savedJobs st))
    ∧ (0 < gap →
       currentJobIndex (elapse (300 - gap) st2)
         = (currentJobIndex st + 1) mod length (filteredJobs st)
       ∧ animation (elapse (300 - gap) st2) = None
       ∧ length (timers (elapse (300 - gap) st2)) = 1)
    ∧ currentJobIndex (elapse 300 st2)
      = ((currentJobIndex st + 1) mod length (filteredJobs st) + 1)
        mod length (filteredJobs st)
    ∧ animation (elapse 300 st2) = None
    ∧ timers (elapse 300 st2) = [].
Proof.
  intros Hidle Hidx Hgap.
  destruct (lookup_lt_is_Some_2 _ _ Hidx) as [job Hjob].
  destruct (clickSwipe_phase1 d1 st job Hjob)
    as (st1 & Hrun1 & Hanim1 & Hsaved1 & Hcur1 & Hfj1 & Hnow1 & Ht1).
  rewrite Hidle in Ht1. simpl in Ht1.
  assert (Hwait : elapse gap st1 = setClock (now st1 + gap) (timers st1) st1).
  { rewrite Ht1. apply elapse_one_pending; [done | simpl; lia]. }
  assert (Hjob' : currentJob (elapse gap st1) = Some job).
  { rewrite Hwait. unfold currentJob. simpl. by rewrite Hfj1, Hcur1. }
  destruct (clickSwipe_phase1 d2 _ job Hjob')
    as (st2 & Hrun2 & Hanim2 & Hsaved2 & Hcur2 & Hfj2 & Hnow2 & Ht2).
  rewrite Hwait in Hsaved2, Hcur2, Hfj2, Hnow2, Ht2.
  simpl in Hsaved2, Hcur2, Hfj2, Hnow2, Ht2. rewrite Ht1 in Ht2. simpl in Ht2.
  exists job, st1, st2. repeat split; try done.
  - by rewrite Hsaved2, Hsaved1.
  - rewrite (elapse_two_first _ _ _ _ Ht2) by (simpl; lia).
    destruct (timerCallback_fields (mkTimer (now st + 300) (filteredJobs st))
                (setClock (now st2 + (300 - gap))
                   [mkTimer (now st1 + gap + 300) (filteredJobs st1)] st2))
      as (-> & _). simpl. by rewrite Hcur2, Hcur1.
  - rewrite (elapse_two_first _ _ _ _ Ht2) by (simpl; lia).
    apply timerCallback_fields.
  - rewrite (elapse_two_first _ _ _ _ Ht2) by (simpl; lia).
    destruct (timerCallback_fields (mkTimer (now st + 300) (filteredJobs st))
                (setClock (now st2 + (300 - gap))
                   [mkTimer (now st1 + gap + 300) (filteredJobs st1)] st2))
      as (_ & _ & _ & _ & _ & ->). done.
  - rewrite (elapse_two_due _ _ _ _ Ht2) by (simpl; lia).
    destruct (timerCallback_fields
                (mkTimer (now st1 + gap + 300) (filteredJobs st1))
                (timerCallback (mkTimer (now st + 300) (filteredJobs st))
                   (setClock (now st2 + 300) [] st2)))
      as (-> & _).
    destruct (timerCallback_fields (mkTimer (now st + 300) (filteredJobs st))
                (setClock (now st2 + 300) [] st2))
      as (-> & _). simpl. by rewrite Hcur2, Hcur1, Hfj1.
  - rewrite (elapse_two_due _ _ _ _ Ht2) by (simpl; lia).
    apply timerCallback_fields.
  - rewrite (elapse_two_due _ _ _ _ Ht2) by (simpl; lia).
    destruct (timerCallback_fields
                (mkTimer (now st1 + gap + 300) (filteredJobs st1))
                (timerCallback (mkTimer (now st + 300) (filteredJobs st))
                   (setClock (now st2 + 300) [] st2)))
      as (_ & _ & _ & _ & _ & ->).
    destruct (timerCallback_fields (mkTimer (now st + 300) (filteredJobs st))
                (setClock (now st2 + 300) [] st2))
      as (_ & _ & _ & _ & _ & ->). done.
Qed.

Lemma overlapping_swipes_both_advance_witness :
  ∃ st1 st2,
    clickSwipe Direction.right mounted = Some st1
    ∧ clickSwipe Direction.left (elapse 100 st1) = Some st2
    ∧ currentJobIndex (elapse 200 st2) = 1
    ∧ currentJobIndex (elapse 300 st2) = 2.
Proof.
  destruct (overlapping_swipes_both_advance mounted
              Direction.right Direction.left 100)
    as (job & st1 & st2 & _ & Hrun1 & Hrun2 & _ & _ & _ & _ & Hfirst & Hboth & _).
  - reflexivity.
  - vm_compute. lia.
  - lia.
  - exists st1, st2. split; [exact Hrun1|]. split; [exact Hrun2|].
    split; [apply Hfirst; lia | exact Hboth].
Defined.

(** C3 as stated fails at two swipes 100 time units apart: the earlier
    call's callback is not superseded. It moves the cursor and clears
    the marker at time 300, with the later call still in transition,
    and at time 400 the cursor is at 2, having moved once per call. *)
Lemma earlier_advance_not_superseded :
  ∃ st st',
    run [ClickSwipe Direction.left; Elapse 100; ClickSwipe Direction.left;
         Elapse 200] mounted = Some st
    ∧ currentJobIndex st = 1 ∧ animation st = None ∧ length (timers st) = 1
    ∧ run [Elapse 100] st = Some st'
    ∧ currentJobIndex st' = 2
    ∧ currentJobIndex st'
      ≠ (currentJobIndex mounted + 1) mod length (filteredJobs mounted).
Proof.
  eexists. eexists. split; [vm_compute; reflexivity|].
  split; [reflexivity|]. split; [reflexivity|]. split; [reflexivity|].
  split; [vm_compute; reflexivity|]. split; [reflexivity|].
  vm_compute. discriminate.
Qed.

(** Every change of a filter input leaves the cursor at 0. *)
Lemma filter_inputs_reset_index st :
  (∀ id, currentJobIndex (toggleCriteria id st) = 0)
  ∧ (∀ a o st', a ≠ o → handleDragEnd a o st = Some st' →
       currentJobIndex st' = 0)
  ∧ (∀ v, v ≠ searchTerm st → currentJobIndex (onSearchChange v st) = 0)
  ∧ (∀ v, currentJobIndex (onMinSalaryChange v st) = 0)
  ∧ (∀ v, currentJobIndex (onMaxDistanceChange v st) = 0)
  ∧ (∀ b, currentJobIndex (onRemoteOnlyChange b st) = 0).
Proof.
  repeat split; intros; try apply rerender_resets.
  - unfold handleDragEnd in *.
    destruct (String.eqb_spec a o); [done|].
    destruct (mapM id _); simplify_eq/=. apply rerender_resets.
  - unfold onSearchChange.
    destruct (String.eqb_spec v (searchTerm st)); [done|].
    apply rerender_resets.
Qed.

(** C1, at the input where the code departs from it. A swipe by button
    schedules its advance; before the 300 time units are over the search
    term becomes "ux", which leaves one listing and resets the index to
    0; the callback then computes (0 + 1) mod 4 with the length of the
    sequence it was created under: the index is 1 in a sequence of
    length 1, and there is no current item. *)
Theorem stale_advance_out_of_range :
  ∃ st,
    run [ClickSwipe Direction.left; SearchChange "ux"; Elapse 300] mounted
      = Some st
    ∧ reachable st
    ∧ map Job.id (filteredJobs st) = [2%Z]
    ∧ currentJobIndex st = 1
    ∧ ¬ currentJobIndex st < length (filteredJobs st)
    ∧ currentJob st = None.
Proof.
  eexists. split; [vm_compute; reflexivity|]. split.
  { exists [ClickSwipe Direction.left; SearchChange "ux"; Elapse 300].
    vm_compute. reflexivity. }
  split; [reflexivity|]. split; [reflexivity|]. split; [|reflexivity].
  simpl. lia.
Qed.

(** ** The keydown listener *)

(** A listener registered by the render on screen acts as the buttons do. *)
Lemma handleKeyPress_current st :
  keyListener st = closureOf st →
  handleKeyPress "ArrowLeft" st = clickSwipe Direction.left st
  ∧ handleKeyPress "ArrowRight" st = clickSwipe Direction.right st.
Proof. intros Hcur. unfold handleKeyPress, clickSwipe. by rewrite Hcur. Qed.

(** Swipes and the passing of time keep the listener up to date; a change
    of a filter input made while the index is 0 does not. *)
Lemma timerCallback_listener t st :
  keyListener st = closureOf st →
  keyListener (timerCallback t st) = closureOf (timerCallback t st).
Proof.
  intros Hcur. unfold timerCallback, commit. simpl.
  destruct (_ =? _) eqn:Heq; [|done].
  apply Nat.eqb_eq in Heq. simpl. rewrite Hcur. unfold closureOf. simpl.
  by rewrite Heq.
Qed.

Lemma elapse_listener n st :
  keyListener st = closureOf st →
  keyListener (elapse n st) = closureOf (elapse n st).
Proof.
  intros Hcur. unfold elapse.
  generalize (List.filter (fun t => due t <=? now st + n) (timers st)).
  intros fired.
  assert (Hstart : keyListener (setClock (now st + n)
                      (List.filter (fun t => negb (due t <=? now st + n))
                         (timers st)) st)
                   = closureOf (setClock (now st + n)
                      (List.filter (fun t => negb (due t <=? now st + n))
                         (timers st)) st)) by done.
  revert Hstart. generalize (setClock (now st + n)
                      (List.filter (fun t => negb (due t <=? now st + n))
                         (timers st)) st).
  induction fired as [|t fired IH]; intros s Hs; simpl; [done|].
  apply IH. by apply timerCallback_listener.
Qed.

Lemma handleSwipe_listener cl d st st' :
  keyListener st = closureOf st → handleSwipe cl d st = Some st' →
  keyListener st' = closureOf st'.
Proof.
  intros Hcur. unfold handleSwipe. destruct (_ =? _); [congruence|].
  destruct d; simpl.
  - intros [= <-]. done.
  - destruct (cl_filteredJobs cl !! cl_currentJobIndex cl); simpl; [|done].
    intros [= <-]. done.
Qed.

(** After the search term changed with the index at 0, the listener still
    calls the [handleSwipe] of the first render, which sees all four
    listings: ArrowLeft schedules an advance modulo 4 on a deck of one. *)
Lemma stale_listener_out_of_range :
  ∃ st st',
    run [SearchChange "ux"] mounted = Some st
    ∧ map Job.id (filteredJobs st) = [2%Z]
    ∧ map Job.id (cl_filteredJobs (keyListener st)) = [1%Z; 2%Z; 3%Z; 4%Z]
    ∧ run [KeyDown "ArrowLeft"; Elapse 300] st = Some st'
    ∧ currentJobIndex st' = 1
    ∧ currentJob st' = None.
Proof.
  eexists. eexists. split; [vm_compute; reflexivity|].
  split; [reflexivity|]. split; [reflexivity|].
  split; [vm_compute; reflexivity|]. split; reflexivity.
Qed.

(** C9, at the input where the code departs from it. The search term
    "ux" leaves a fixed sequence of one listing, the deck at rest on
    index 0. The keydown listener was registered by the first render and
    is not replaced, the index being 0 before and after: its
    [handleSwipe] advances modulo the four listings it closed over. One
    swipe by ArrowLeft and the settle delay put the index at 1, not at
    (0 + 1) mod 1 = 0: after N = 1 swipes the cursor is not back where it
    was, and it points outside the sequence. *)
Theorem key_swipe_leaves_cycle :
  ∃ st st',
    run [SearchChange "ux"] mounted = Some st
    ∧ reachable st
    ∧ timers st = [] ∧ animation st = None
    ∧ length (filteredJobs st) = 1
    ∧ currentJobIndex st = 0
    ∧ length (cl_filteredJobs (keyListener st)) = 4
    ∧ run [KeyDown "ArrowLeft"; Elapse 300] st = Some st'
    ∧ filteredJobs st' = filteredJobs st
    ∧ timers st' = []
    ∧ currentJobIndex st' = 1
    ∧ (currentJobIndex st + 1) mod length (filteredJobs st) = 0
    ∧ currentJobIndex st' ≠ currentJobIndex st
    ∧ ¬ currentJobIndex st' < length (filteredJobs st').
Proof.
  eexists. eexists. split; [vm_compute; reflexivity|]. split.
  { exists [SearchChange "ux"]. vm_compute. reflexivity. }
  split; [reflexivity|]. split; [reflexivity|]. split; [reflexivity|].
  split; [reflexivity|]. split; [reflexivity|].
  split; [vm_compute; reflexivity|].
  split; [reflexivity|]. split; [reflexivity|]. split; [reflexivity|].
  split; [reflexivity|]. split; [discriminate|]. simpl. lia.
Qed.

(** With all four criteria switched off from the start, the deck is empty
    but the listener's [handleSwipe] is the first render's: its guard
    reads four listings, and ArrowRight sets the marker, saves listing 1
    and schedules an advance. *)
Lemma stale_listener_swipes_on_empty_deck :
  ∃ st st',
    run [ToggleCriteria "permanent"; ToggleCriteria "fixed-term";
         ToggleCriteria "temporary"; ToggleCriteria "internship"] mounted
      = Some st
    ∧ filteredJobs st = []
    ∧ elements (savedJobs st) = [] ∧ animation st = None ∧ timers st = []
    ∧ handleKeyPress "ArrowRight" st = Some st'
    ∧ elements (savedJobs st') = [1%Z]
    ∧ animation st' = Some swipe_right
    ∧ timers st' = [mkTimer 300 DUMMY_JOBS].
Proof.
  eexists. eexists. split; [vm_compute; reflexivity|].
  split; [reflexivity|]. split; [reflexivity|].
  split; [reflexivity|]. split; [reflexivity|].
  split; [vm_compute; reflexivity|]. repeat split; reflexivity.
Qed.

(** C7, at the input where the code departs from it. With all four
    criteria switched off from the start the filtered sequence is empty,
    there is no current item and the Saved Set is empty. The index is 0
    as at the first render, so the keydown listener is still the first
    render's, and the guard of its [handleSwipe] reads the four listings
    it closed over: ArrowRight is not a no-op. It saves listing 1, sets
    the transition marker and schedules a callback, which 300 time units
    later puts the index at 1 on the empty sequence. *)
Theorem key_swipe_on_empty_deck :
  ∃ st st',
    run [ToggleCriteria "permanent"; ToggleCriteria "fixed-term";
         ToggleCriteria "temporary"; ToggleCriteria "internship"] mounted
      = Some st
    ∧ reachable st
    ∧ filteredJobs st = []
    ∧ currentJob st = None
    ∧ currentJobIndex st = 0
    ∧ elements (savedJobs st) = [] ∧ animation st = None ∧ timers st = []
    ∧ cl_filteredJobs (keyListener st) = DUMMY_JOBS
    ∧ run [KeyDown "ArrowRight"] st = Some st'
    ∧ st' ≠ st
    ∧ filteredJobs st' = []
    ∧ elements (savedJobs st') = [1%Z]
    ∧ animation st' = Some swipe_right
    ∧ timers st' = [mkTimer 300 DUMMY_JOBS]
    ∧ currentJobIndex (elapse 300 st') = 1.
Proof.
  eexists. eexists. split; [vm_compute; reflexivity|]. split.
  { exists [ToggleCriteria "permanent"; ToggleCriteria "fixed-term";
            ToggleCriteria "temporary"; ToggleCriteria "internship"].
    vm_compute. reflexivity. }
  split; [reflexivity|]. split; [reflexivity|]. split; [reflexivity|].
  split; [reflexivity|]. split; [reflexivity|]. split; [reflexivity|].
  split; [reflexivity|]. split; [vm_compute; reflexivity|].
  split; [discriminate|].
  split; [reflexivity|]. split; [reflexivity|]. split; [reflexivity|].
  split; [reflexivity|]. vm_compute. reflexivity.
Qed.

(** Where the guard of [handleSwipe] does its work. A [handleSwipe]
    whose own sequence is empty is a no-op in either direction: the whole
    state, the Saved Set, the index, the marker and the list of scheduled
    callbacks included, is returned as it is. This covers the handler of
    the render on screen and the keydown listener when it is up to date.
    The current item of an empty sequence is "none". *)
Lemma swipe_on_empty_deck st d :
  filteredJobs st = [] →
  clickSwipe d st = Some st
  ∧ (∀ cl, cl_filteredJobs cl = [] → handleSwipe cl d st = Some st)
  ∧ (keyListener st = closureOf st →
     ∀ key, handleKeyPress key st = Some st)
  ∧ currentJob st = None.
Proof.
  intros Hempty.
  assert (Hclick : ∀ d', clickSwipe d' st = Some st).
  { intros d'. by apply handleSwipe_guard. }
  split; [apply Hclick|]. split; [intros cl Hcl; by apply handleSwipe_guard|].
  split; [|by apply currentJob_none].
  intros Hcur key. unfold handleKeyPress. rewrite Hcur.
  destruct (String.eqb key "ArrowLeft"); [apply (Hclick Direction.left)|].
  destruct (String.eqb key "ArrowRight"); [apply (Hclick Direction.right)|done].
Qed.

Lemma swipe_on_empty_deck_witness :
  clickSwipe Direction.right
    (toggleCriteria "internship"
       (toggleCriteria "temporary"
          (toggleCriteria "fixed-term" (toggleCriteria "permanent" mounted))))
  = Some
      (toggleCriteria "internship"
         (toggleCriteria "temporary"
            (toggleCriteria "fixed-term" (toggleCriteria "permanent" mounted))))
  ∧ currentJob
      (toggleCriteria "internship"
         (toggleCriteria "temporary"
            (toggleCriteria "fixed-term" (toggleCriteria "permanent" mounted))))
    = None.
Proof.
  destruct (swipe_on_empty_deck
              (toggleCriteria "internship"
                 (toggleCriteria "temporary"
                    (toggleCriteria "fixed-term"
                       (toggleCriteria "permanent" mounted))))
              Direction.right)
    as (Hclick & _ & _ & Hnone).
  - vm_compute. reflexivity.
  - split; [exact Hclick | exact Hnone].
Defined.

End Deck.

(** * Criteria list manager *)

Section Criteria.
Context {A : Type}.
Implicit Types (l : list A) (p : A → bool) (x : A).

Lemma findIndex_range p l :
  (-1 ≤ findIndex p l < Z.of_nat (length l))%Z.
Proof.
  induction l as [|x l IH]; simpl; [lia|].
  destruct (p x); [lia|]. destruct (Z.ltb_spec (findIndex p l) 0); lia.
Qed.

Lemma findIndex_found p l (i : nat) :
  findIndex p l = Z.of_nat i → ∃ x, l !! i = Some x ∧ p x = true.
Proof.
  revert i. induction l as [|x l IH]; intros i; simpl; [lia|].
  destruct (p x) eqn:Hp.
  - intros Hi. assert (i = 0) as -> by lia. by exists x.
  - destruct (Z.ltb_spec (findIndex p l) 0); [lia|]. intros Hi.
    destruct i as [|i]; [lia|]. simpl. apply IH. lia.
Qed.

Lemma findIndex_present p l x :
  x ∈ l → p x = true → (0 ≤ findIndex p l)%Z.
Proof.
  induction 1 as [x l|x y l _ IH]; intros Hp; simpl.
  - by rewrite Hp.
  - destruct (p y); [lia|]. specialize (IH Hp).
    destruct (Z.ltb_spec (findIndex p l) 0); lia.
Qed.

Lemma findIndex_absent p l :
  (∀ x, x ∈ l → p x = false) → findIndex p l = (-1)%Z.
Proof.
  induction l as [|x l IH]; intros Hno; simpl; [done|].
  rewrite (Hno x) by constructor.
  rewrite IH by (intros y Hy; apply Hno; by constructor). done.
Qed.

Lemma insertAt_lookup s x l : s ≤ length l → insertAt s x l !! s = Some x.
Proof.
  intros Hs. unfold insertAt. apply list_lookup_middle.
  by rewrite length_take_le.
Qed.

Lemma insertAt_delete s x l : s ≤ length l → delete s (insertAt s x l) = l.
Proof.
  intros Hs. unfold insertAt.
  rewrite <- (length_take_le l s) at 1 by done.
  by rewrite delete_middle, take_drop.
Qed.

Lemma insertAt_before s x l :
  s < length l → insertAt (S s) x l !! s = l !! s.
Proof.
  intros Hlt. unfold insertAt.
  rewrite lookup_app_l by (rewrite length_take; lia).
  apply lookup_take_lt. lia.
Qed.

Lemma insertAt_after s x l : s ≤ length l → insertAt s x l !! S s = l !! s.
Proof.
  intros Hs. unfold insertAt.
  rewrite lookup_app_r by (rewrite length_take; lia).
  rewrite length_take_le by done.
  replace (S s - s) with 1 by lia. simpl. rewrite lookup_drop.
  f_equal. lia.
Qed.

Lemma insertAt_Permutation s x l k :
  l !! k = Some x → insertAt s x (delete k l) ≡ₚ l.
Proof.
  intros Hx. unfold insertAt.
  rewrite <- Permutation_middle, take_drop.
  symmetry. by apply delete_Permutation.
Qed.

Lemma insertAt_delete_same k x l :
  l !! k = Some x → insertAt k x (delete k l) = l.
Proof.
  intros Hx. pose proof (lookup_lt_Some _ _ _ Hx) as Hk.
  unfold insertAt. rewrite delete_take_drop.
  rewrite take_app_length', drop_app_length' by (rewrite length_take; lia).
  by apply take_drop_middle.
Qed.

Lemma insertAt_end x l : insertAt (length l) x l = l ++ [x].
Proof. unfold insertAt. by rewrite take_ge, drop_ge by lia. Qed.

(** [arrayMove] when its inner [splice] does remove an element. *)
Lemma arrayMove_removed l (from to : Z) x :
  l !! spliceStart (length l) from = Some x →
  arrayMove l from to
  = Some <$>
      insertAt
        (spliceStart (length l - 1)
           (if (to <? 0)%Z then (Z.of_nat (length l) + to)%Z else to))
        x (delete (spliceStart (length l) from) l).
Proof.
  intros Hx. unfold arrayMove, insertAt. rewrite Hx.
  rewrite (length_delete l) by eauto.
  by rewrite fmap_app, fmap_cons.
Qed.

Lemma arrayMove_in_range l (i j : nat) x :
  l !! i = Some x → j < length l →
  arrayMove l (Z.of_nat i) (Z.of_nat j)
  = Some <$> insertAt j x (delete i l).
Proof.
  intros Hx Hj. pose proof (lookup_lt_Some _ _ _ Hx) as Hi.
  assert (Hk : spliceStart (length l) (Z.of_nat i) = i).
  { unfold spliceStart. destruct (Z.ltb_spec (Z.of_nat i) 0); lia. }
  rewrite (arrayMove_removed l _ _ x) by (by rewrite Hk).
  rewrite Hk. do 2 f_equal.
  destruct (Z.ltb_spec (Z.of_nat j) 0); [lia|].
  unfold spliceStart. destruct (Z.ltb_spec (Z.of_nat j) 0); lia.
Qed.

(** With both indices [-1] the last element is taken out and put back. *)
Lemma arrayMove_both_absent l :
  l ≠ [] → arrayMove l (-1) (-1) = Some <$> l.
Proof.
  intros Hne. destruct (exists_last Hne) as (l' & x & ->).
  assert (Hk : spliceStart (length (l' ++ [x])) (-1) = length l').
  { unfold spliceStart. rewrite length_app. simpl. lia. }
  rewrite (arrayMove_removed _ _ _ x)
    by (rewrite Hk; by apply list_lookup_middle).
  rewrite Hk. f_equal.
  rewrite (delete_middle l' [] x), app_nil_r.
  replace (spliceStart _ _) with (length l').
  - unfold insertAt. by rewrite take_ge, drop_ge by lia.
  - unfold spliceStart. rewrite length_app. simpl.
    destruct (Z.ltb_spec (Z.of_nat (length l' + 1) + -1) 0); lia.
Qed.

(** On a non-empty array and indices as [findIndex] returns them,
    [arrayMove] permutes. *)
Lemma arrayMove_Permutation l (from to : Z) :
  l ≠ [] → (-1 ≤ from < Z.of_nat (length l))%Z →
  ∃ l', arrayMove l from to = Some <$> l' ∧ l' ≡ₚ l.
Proof.
  intros Hne Hfrom.
  assert (Hlt : spliceStart (length l) from < length l).
  { destruct l; [done|]. unfold spliceStart. simpl length in *.
    destruct (Z.ltb_spec from 0); lia. }
  destruct (lookup_lt_is_Some_2 _ _ Hlt) as [x Hx].
  eexists. split; [by apply arrayMove_removed|].
  by apply insertAt_Permutation.
Qed.

End Criteria.

Section Reorder.
Implicit Types (items : list SearchCriteria.t) (st : State).
Implicit Types (c : SearchCriteria.t).

Lemma hasId_true id c : hasId id c = true ↔ SearchCriteria.id c = id.
Proof. apply String.eqb_eq. Qed.

Lemma findIndex_hasId_present id items :
  id ∈ idsOf items →
  ∃ (i : nat) c,
    findIndex (hasId id) items = Z.of_nat i
    ∧ items !! i = Some c ∧ SearchCriteria.id c = id.
Proof.
  unfold idsOf. rewrite list_elem_of_In, in_map_iff.
  intros (c & Hid & Hin). apply list_elem_of_In in Hin.
  pose proof (findIndex_present (hasId id) items c Hin
                (proj2 (hasId_true id c) Hid)) as Hpos.
  exists (Z.to_nat (findIndex (hasId id) items)).
  destruct (findIndex_found (hasId id) items
              (Z.to_nat (findIndex (hasId id) items)))
    as (c' & Hc' & Hp); [lia|].
  exists c'. split; [lia|]. split; [done|]. by apply hasId_true.
Qed.

Lemma findIndex_hasId_absent id items :
  id ∉ idsOf items → findIndex (hasId id) items = (-1)%Z.
Proof.
  intros Hnot. apply findIndex_absent. intros c Hin.
  destruct (hasId id c) eqn:Hp; [|done].
  apply hasId_true in Hp. exfalso. apply Hnot.
  unfold idsOf. apply list_elem_of_In, in_map_iff. exists c.
  by rewrite <- list_elem_of_In.
Qed.

Lemma rerender_criteria prev st : criteria (rerender prev st) = criteria st.
Proof. unfold rerender, commit. by destruct (_ =? _). Qed.

(** A drag between two different criteria, with the updater's result
    free of [undefined]. *)
Lemma handleDragEnd_defined activeId overId st items' :
  activeId ≠ overId →
  dragEndUpdater activeId overId (criteria st) = Some <$> items' →
  ∃ st', handleDragEnd activeId overId st = Some st' ∧ criteria st' = items'.
Proof.
  intros Hne Hupd. unfold handleDragEnd.
  destruct (String.eqb_spec activeId overId); [done|].
  rewrite Hupd, mapM_fmap_Some by done. simpl.
  eexists. split; [done|]. by rewrite rerender_criteria.
Qed.

(** [findIndex] gives [-1] for an absent identifier, which the inner
    [splice] of [arrayMove] reads as the last position. *)
Lemma arrayMove_from_absent items (j : nat) lastOne :
  j < length items →
  items !! (length items - 1) = Some lastOne →
  arrayMove items (-1) (Z.of_nat j)
  = Some <$> insertAt j lastOne (delete (length items - 1) items).
Proof.
  intros Hj Hlast.
  assert (Hk : spliceStart (length items) (-1) = length items - 1).
  { unfold spliceStart. destruct (Z.ltb_spec (-1) 0); lia. }
  rewrite (arrayMove_removed items _ _ lastOne) by (by rewrite Hk).
  rewrite Hk. do 2 f_equal.
  destruct (Z.ltb_spec (Z.of_nat j) 0); [lia|].
  unfold spliceStart. destruct (Z.ltb_spec (Z.of_nat j) 0); lia.
Qed.

(** As the target of the outer [splice], [-1] is the last position of
    the array before the removal, hence the end of the array after it. *)
Lemma arrayMove_to_absent items (i : nat) moved :
  items !! i = Some moved →
  arrayMove items (Z.of_nat i) (-1)
  = Some <$> insertAt (length items - 1) moved (delete i items).
Proof.
  intros Hx. pose proof (lookup_lt_Some _ _ _ Hx) as Hi.
  assert (Hk : spliceStart (length items) (Z.of_nat i) = i).
  { unfold spliceStart. destruct (Z.ltb_spec (Z.of_nat i) 0); lia. }
  rewrite (arrayMove_removed items _ _ moved) by (by rewrite Hk).
  rewrite Hk. do 2 f_equal.
  destruct (Z.ltb_spec (-1) 0); [|lia].
  unfold spliceStart.
  destruct (Z.ltb_spec (Z.of_nat (length items) + -1) 0); lia.
Qed.

(** C4, as amended. [handleDragEnd] with equal identifiers changes
    nothing. With two different identifiers that are both in the
    sequence, the criterion with the first one ends up at the index the
    reference had, next to the reference, and the sequence without it is
    what it was. With two identifiers that are both absent a non-empty
    sequence stays as it is. Whatever the identifiers, a non-empty
    sequence is permuted: its length and its criteria, with their
    identifiers and active flags, are kept. With only the first
    identifier absent the last criterion is taken out and put at the
    index of the reference, which changes nothing when the reference is
    the last criterion; with only the reference absent the criterion
    with the first identifier is taken out and put at the end, which
    changes nothing when it was the last one. *)
Theorem handleDragEnd_relocates activeId overId st :
  (activeId = overId → handleDragEnd activeId overId st = Some st)
  ∧ (activeId ≠ overId →
     activeId ∈ idsOf (criteria st) → overId ∈ idsOf (criteria st) →
     ∃ (i j : nat) moved reference st',
       findIndex (hasId activeId) (criteria st) = Z.of_nat i
       ∧ findIndex (hasId overId) (criteria st) = Z.of_nat j
       ∧ criteria st !! i = Some moved
       ∧ SearchCriteria.id moved = activeId
       ∧ criteria st !! j = Some reference
       ∧ SearchCriteria.id reference = overId
       ∧ handleDragEnd activeId overId st = Some st'
       ∧ criteria st' !! j = Some moved
       ∧ (i < j → criteria st' !! (j - 1) = Some reference)
       ∧ (j < i → criteria st' !! (j + 1) = Some reference)
       ∧ delete j (criteria st') = delete i (criteria st))
  ∧ (activeId ≠ overId → criteria st ≠ [] →
     activeId ∉ idsOf (criteria st) → overId ∉ idsOf (criteria st) →
     ∃ st', handleDragEnd activeId overId st = Some st'
            ∧ criteria st' = criteria st)
  ∧ (criteria st ≠ [] →
     ∃ st', handleDragEnd activeId overId st = Some st'
            ∧ criteria st' ≡ₚ criteria st
            ∧ length (criteria st') = length (criteria st)
            ∧ (∀ c, c ∈ criteria st' ↔ c ∈ criteria st))
  ∧ (activeId ∉ idsOf (criteria st) → overId ∈ idsOf (criteria st) →
     ∃ (j : nat) reference lastOne st',
       findIndex (hasId overId) (criteria st) = Z.of_nat j
       ∧ criteria st !! j = Some reference
       ∧ SearchCriteria.id reference = overId
       ∧ criteria st !! (length (criteria st) - 1) = Some lastOne
       ∧ handleDragEnd activeId overId st = Some st'
       ∧ criteria st'
         = insertAt j lastOne
             (delete (length (criteria st) - 1) (criteria st))
       ∧ criteria st' !! j = Some lastOne
       ∧ (j < length (criteria st) - 1 →
          criteria st' !! (j + 1) = Some reference)
       ∧ (j = length (criteria st) - 1 → criteria st' = criteria st))
  ∧ (activeId ∈ idsOf (criteria st) → overId ∉ idsOf (criteria st) →
     ∃ (i : nat) moved st',
       findIndex (hasId activeId) (criteria st) = Z.of_nat i
       ∧ criteria st !! i = Some moved
       ∧ SearchCriteria.id moved = activeId
       ∧ handleDragEnd activeId overId st = Some st'
       ∧ criteria st' = delete i (criteria st) ++ [moved]
       ∧ (i = length (criteria st) - 1 → criteria st' = criteria st)).
Proof.
  split; [|split; [|split; [|split; [|split]]]].
  - intros ->. unfold handleDragEnd. by rewrite String.eqb_refl.
  - intros Hne Hactive Hover.
    destruct (findIndex_hasId_present _ _ Hactive) as (i & x & Hi & Hx & Hidx).
    destruct (findIndex_hasId_present _ _ Hover) as (j & y & Hj & Hy & Hidy).
    pose proof (lookup_lt_Some _ _ _ Hx) as Hilt.
    pose proof (lookup_lt_Some _ _ _ Hy) as Hjlt.
    assert (Hlen : length (delete i (criteria st)) = length (criteria st) - 1)
      by (apply length_delete; eauto).
    destruct (handleDragEnd_defined activeId overId st
                (insertAt j x (delete i (criteria st))) Hne)
      as (st' & Hrun & Hc).
    { unfold dragEndUpdater. rewrite Hi, Hj. by apply arrayMove_in_range. }
    exists i, j, x, y, st'. rewrite Hc. repeat split; try done.
    + apply insertAt_lookup. lia.
    + intros Hlt. destruct j as [|j]; [lia|].
      replace (S j - 1) with j by lia.
      rewrite insertAt_before by lia.
      rewrite list_lookup_delete_ge by lia. done.
    + intros Hlt. replace (j + 1) with (S j) by lia.
      rewrite insertAt_after by lia.
      by rewrite list_lookup_delete_lt.
    + apply insertAt_delete. lia.
  - intros Hne Hnil Hactive Hover.
    apply (handleDragEnd_defined activeId overId st _ Hne).
    unfold dragEndUpdater.
    rewrite (findIndex_hasId_absent _ _ Hactive).
    rewrite (findIndex_hasId_absent _ _ Hover).
    by apply arrayMove_both_absent.
  - intros Hnil. destruct (String.eqb_spec activeId overId) as [->|Hne].
    + exists st. unfold handleDragEnd. by rewrite String.eqb_refl.
    + destruct (arrayMove_Permutation (criteria st)
                  (findIndex (hasId activeId) (criteria st))
                  (findIndex (hasId overId) (criteria st)) Hnil)
        as (items' & Hmove & Hperm); [apply findIndex_range|].
      destruct (handleDragEnd_defined activeId overId st items' Hne Hmove)
        as (st' & Hrun & Hc).
      exists st'. rewrite Hc. split; [done|]. split; [done|].
      split; [by rewrite Hperm|]. intros c. by rewrite Hperm.
  - intros Hactive Hover.
    assert (Hne : activeId ≠ overId) by (by intros ->).
    destruct (findIndex_hasId_present _ _ Hover) as (j & y & Hj & Hy & Hidy).
    pose proof (lookup_lt_Some _ _ _ Hy) as Hjlt.
    destruct (lookup_lt_is_Some_2 (criteria st) (length (criteria st) - 1))
      as [z Hz]; [lia|].
    assert (Hlen : length (delete (length (criteria st) - 1) (criteria st))
                   = length (criteria st) - 1)
      by (apply length_delete; eauto).
    destruct (handleDragEnd_defined activeId overId st
                (insertAt j z
                   (delete (length (criteria st) - 1) (criteria st))) Hne)
      as (st' & Hrun & Hc).
    { unfold dragEndUpdater.
      rewrite (findIndex_hasId_absent _ _ Hactive), Hj.
      by apply arrayMove_from_absent. }
    exists j, y, z, st'. rewrite Hc. repeat split; try done.
    + apply insertAt_lookup. lia.
    + intros Hlt. replace (j + 1) with (S j) by lia.
      rewrite insertAt_after by lia.
      by rewrite list_lookup_delete_lt by lia.
    + intros ->. by apply insertAt_delete_same.
  - intros Hactive Hover.
    assert (Hne : activeId ≠ overId) by (by intros ->).
    destruct (findIndex_hasId_present _ _ Hactive) as (i & x & Hi & Hx & Hidx).
    pose proof (lookup_lt_Some _ _ _ Hx) as Hilt.
    assert (Hlen : length (delete i (criteria st)) = length (criteria st) - 1)
      by (apply length_delete; eauto).
    destruct (handleDragEnd_defined activeId overId st
                (delete i (criteria st) ++ [x]) Hne)
      as (st' & Hrun & Hc).
    { unfold dragEndUpdater.
      rewrite (findIndex_hasId_absent _ _ Hover), Hi.
      rewrite (arrayMove_to_absent _ _ _ Hx).
      by rewrite <- Hlen, insertAt_end. }
    exists i, x, st'. rewrite Hc. repeat split; try done.
    intros ->. rewrite <- insertAt_end, Hlen.
    by apply insertAt_delete_same.
Qed.

Lemma handleDragEnd_relocates_witness :
  (∃ st',
     handleDragEnd "fixed-term" "internship" mounted = Some st'
     ∧ criteria st' !! 3 = Some (SearchCriteria.mk "fixed-term" "Fixed-term" true)
     ∧ criteria st' !! 2 = Some (SearchCriteria.mk "internship" "Internship" true))
  ∧ (∃ st',
       handleDragEnd "unknown" "internship" mounted = Some st'
       ∧ criteria st' = criteria mounted).
Proof.
  split.
  - destruct (handleDragEnd_relocates "fixed-term" "internship" mounted)
      as (_ & Hmove & _).
    destruct Hmove as (i & j & x & y & st' & Hi & Hj & Hx & _ & Hy & _ & Hrun
                       & Hat & Hnext & _).
    + discriminate.
    + vm_compute. repeat constructor.
    + vm_compute. repeat constructor.
    + assert (findIndex (hasId "fixed-term") (criteria mounted) = 1%Z) as Hi'
        by (vm_compute; reflexivity).
      assert (findIndex (hasId "internship") (criteria mounted) = 3%Z) as Hj'
        by (vm_compute; reflexivity).
      assert (i = 1) as -> by lia. assert (j = 3) as -> by lia.
      exists st'. split; [exact Hrun|]. split.
      * rewrite Hat, <- Hx. reflexivity.
      * change 2 with (3 - 1). rewrite (Hnext ltac:(lia)), <- Hy. reflexivity.
  - destruct (handleDragEnd_relocates "unknown" "internship" mounted)
      as (_ & _ & _ & _ & Hlast & _).
    destruct Hlast as (j & y & z & st' & Hj & _ & _ & _ & Hrun & _ & _ & _
                       & Hsame).
    + rewrite list_elem_of_In. vm_compute. intuition discriminate.
    + vm_compute. repeat constructor.
    + assert (findIndex (hasId "internship") (criteria mounted) = 3%Z) as Hj'
        by (vm_compute; reflexivity).
      exists st'. split; [exact Hrun|]. apply Hsame.
      assert (j = 3) by lia. subst j. reflexivity.
Defined.

(** C4 as stated fails when one identifier is absent: [findIndex] then
    gives [-1], which [splice] reads as the last position. With an
    unknown dragged identifier and the first criterion as the reference
    the last criterion is moved to the front; with the first criterion
    dragged onto an unknown reference it is moved to the end. Neither
    call is a no-op. *)
Lemma absent_identifier_reorders :
  dragEndUpdater "unknown" "permanent" INITIAL_CRITERIA
  = Some <$> [ SearchCriteria.mk "internship" "Internship" true;
               SearchCriteria.mk "permanent" "Permanent" true;
               SearchCriteria.mk "fixed-term" "Fixed-term" true;
               SearchCriteria.mk "temporary" "Temporary" true ]
  ∧ dragEndUpdater "permanent" "unknown" INITIAL_CRITERIA
    = Some <$> [ SearchCriteria.mk "fixed-term" "Fixed-term" true;
                 SearchCriteria.mk "temporary" "Temporary" true;
                 SearchCriteria.mk "internship" "Internship" true;
                 SearchCriteria.mk "permanent" "Permanent" true ]
  ∧ (∃ st',
       handleDragEnd "unknown" "permanent" mounted = Some st'
       ∧ idsOf (criteria mounted)
         = ["permanent"; "fixed-term"; "temporary"; "internship"]
       ∧ idsOf (criteria st')
         = ["internship"; "permanent"; "fixed-term"; "temporary"]
       ∧ criteria st' ≠ criteria mounted).
Proof.
  split; [vm_compute; reflexivity|]. split; [vm_compute; reflexivity|].
  eexists. split; [vm_compute; reflexivity|].
  split; [reflexivity|]. split; [reflexivity|]. discriminate.
Qed.

End Reorder.

(** * Further properties of the filter *)

Section Search.
Implicit Types (s t : string) (job : Job.t).

Lemma append_cons a s t : String a s +:+ t = String a (s +:+ t).
Proof. reflexivity. Qed.

Lemma startsWith_spec s t : startsWith s t = true ↔ ∃ post, s = t +:+ post.
Proof.
  revert s. induction t as [|b t IH]; intros s.
  - split; [intros _; by exists s | by destruct s].
  - destruct s as [|a s]; simpl.
    + split; [done | intros (post & Hpost); by rewrite append_cons in Hpost].
    + destruct (Ascii.eqb_spec a b) as [->|Hne].
      * rewrite IH. split.
        -- intros (post & ->). exists post. by rewrite append_cons.
        -- intros (post & Hpost). rewrite append_cons in Hpost.
           exists post. congruence.
      * split; [done|]. intros (post & Hpost). rewrite append_cons in Hpost.
        congruence.
Qed.

Lemma includes_spec s t :
  includes s t = true ↔ ∃ pre post, s = pre +:+ t +:+ post.
Proof.
  induction s as [|a s IH].
  - change (includes "" t) with (startsWith "" t || false).
    rewrite orb_false_r, startsWith_spec. split.
    + intros (post & Hpost). by exists "", post.
    + intros (pre & post & Hs). destruct pre; [by exists post|].
      by rewrite append_cons in Hs.
  - change (includes (String a s) t)
      with (startsWith (String a s) t || includes s t).
    rewrite orb_true_iff, IH, startsWith_spec. split.
    + intros [(post & Hpost)|(pre & post & ->)].
      * by exists "", post.
      * exists (String a pre), post. by rewrite append_cons.
    + intros (pre & post & Hs). destruct pre as [|b pre].
      * left. by exists post.
      * right. rewrite append_cons in Hs. exists pre, post. congruence.
Qed.

Lemma lowerChar_idemp c : lowerChar (lowerChar c) = lowerChar c.
Proof. destruct c as [[] [] [] [] [] [] [] []]; reflexivity. Qed.

Lemma toLowerCase_idemp s : toLowerCase (toLowerCase s) = toLowerCase s.
Proof.
  induction s as [|c s IH]; simpl; [done|]. by rewrite lowerChar_idemp, IH.
Qed.

Lemma toLowerCase_append s t :
  toLowerCase (s +:+ t) = toLowerCase s +:+ toLowerCase t.
Proof.
  induction s as [|c s IH]; [done|].
  rewrite append_cons. simpl. by rewrite IH, append_cons.
Qed.

Lemma matchesSearch_iff searchTerm job :
  matchesSearch searchTerm job = true ↔
  ∃ field pre post,
    field ∈ [Job.title job; Job.company job; Job.description job]
    ∧ toLowerCase field = pre +:+ toLowerCase searchTerm +:+ post.
Proof.
  unfold matchesSearch. rewrite !orb_true_iff, !includes_spec. split.
  - intros [[(pre & post & H)|(pre & post & H)]|(pre & post & H)].
    + exists (Job.title job), pre, post. split; [|done]. apply list_elem_of_here.
    + exists (Job.company job), pre, post. split; [|done].
      apply list_elem_of_further, list_elem_of_here.
    + exists (Job.description job), pre, post. split; [|done].
      do 2 apply list_elem_of_further. apply list_elem_of_here.
  - intros (field & pre & post & Hin & H).
    apply elem_of_cons in Hin as [->|Hin]; [left; left; eauto|].
    apply elem_of_cons in Hin as [->|Hin]; [left; right; eauto|].
    apply elem_of_cons in Hin as [->|Hin]; [right; eauto|].
    by apply not_elem_of_nil in Hin.
Qed.

(** Lower-casing acts on each code unit by itself, so a split of the
    lower-cased text is a split of the text. *)
Lemma toLowerCase_split s a b :
  toLowerCase s = a +:+ b →
  ∃ s1 s2, s = s1 +:+ s2 ∧ toLowerCase s1 = a ∧ toLowerCase s2 = b.
Proof.
  revert s. induction a as [|c a IH]; intros s H.
  - by exists "", s.
  - rewrite append_cons in H. destruct s as [|d s]; [done|].
    change (toLowerCase (String d s))
      with (String (lowerChar d) (toLowerCase s)) in H.
    injection H as Hc Hs.
    destruct (IH s Hs) as (s1 & s2 & -> & H1 & H2).
    exists (String d s1), s2. rewrite append_cons. split; [done|].
    split; [|done].
    change (toLowerCase (String d s1))
      with (String (lowerChar d) (toLowerCase s1)).
    by rewrite Hc, H1.
Qed.

(** The search filter is a case-insensitive substring test on three
    fields. For a search term and listing texts of modelled text (code
    units below 128), a listing matches exactly when its title, company
    or description contains a word that is the term up to the case of
    its letters; the empty term matches every listing; and two terms
    that differ in the case of their letters only match the same
    listings. *)
Theorem matchesSearch_substring searchTerm job :
  isAscii searchTerm = true →
  asciiListing job →
  (matchesSearch searchTerm job = true ↔
   ∃ field pre word post,
     field ∈ [Job.title job; Job.company job; Job.description job]
     ∧ field = pre +:+ word +:+ post
     ∧ equalIgnoringCase word searchTerm = true)
  ∧ matchesSearch "" job = true
  ∧ (∀ term', equalIgnoringCase term' searchTerm = true →
       isAscii term' = true
       ∧ matchesSearch term' job = matchesSearch searchTerm job).
Proof.
  intros Hterm Hjob. split; [|split].
  - rewrite matchesSearch_iff. split.
    + intros (field & pre' & post' & Hin & Hlow).
      apply toLowerCase_split in Hlow as (pre & rest & -> & _ & Hrest).
      apply toLowerCase_split in Hrest as (word & post & -> & Hword & _).
      exists (pre +:+ word +:+ post), pre, word, post.
      split; [done|]. split; [done|].
      by apply equalIgnoringCase_toLowerCase.
    + intros (field & pre & word & post & Hin & -> & Hword).
      apply equalIgnoringCase_toLowerCase in Hword.
      exists (pre +:+ word +:+ post), (toLowerCase pre), (toLowerCase post).
      split; [done|]. by rewrite !toLowerCase_append, Hword.
  - apply matchesSearch_iff.
    exists (Job.title job), "", (toLowerCase (Job.title job)).
    split; [apply list_elem_of_here | done].
  - intros term' Hsame.
    split; [by apply (equalIgnoringCase_isAscii _ searchTerm)|].
    apply equalIgnoringCase_toLowerCase in Hsame.
    unfold matchesSearch. by rewrite Hsame.
Qed.

Lemma matchesSearch_substring_witness :
  matchesSearch "FRONTEND"
    (Job.mk 1 "Senior Frontend Developer" "TechCorp Inc." "San Francisco, CA"
       "Permanent" "$120,000 - $180,000" "" [] "" "") = true
  ∧ matchesSearch "frontEnd"
      (Job.mk 1 "Senior Frontend Developer" "TechCorp Inc."
         "San Francisco, CA" "Permanent" "$120,000 - $180,000" "" [] "" "")
    = matchesSearch "FRONTEND"
        (Job.mk 1 "Senior Frontend Developer" "TechCorp Inc."
           "San Francisco, CA" "Permanent" "$120,000 - $180,000" "" [] "" "").
Proof.
  destruct (matchesSearch_substring "FRONTEND"
              (Job.mk 1 "Senior Frontend Developer" "TechCorp Inc."
                 "San Francisco, CA" "Permanent" "$120,000 - $180,000"
                 "" [] "" ""))
    as (Hiff & _ & Hcase).
  - reflexivity.
  - repeat split; reflexivity.
  - split.
    + apply Hiff.
      exists "Senior Frontend Developer", "Senior ", "Frontend", " Developer".
      split; [apply list_elem_of_here|]. split; reflexivity.
    + apply (Hcase "frontEnd"). reflexivity.
Defined.

End Search.

Section FilterStructure.
Implicit Types (criteria : list SearchCriteria.t) (job : Job.t).
Implicit Types (prefs : JobPreferences.t) (st : State).

Lemma filterJobs_elem jobs criteria searchTerm prefs job :
  job ∈ filterJobs jobs criteria searchTerm prefs ↔
  job ∈ jobs ∧ matchesType criteria job = true
  ∧ matchesSearch searchTerm job = true ∧ matchesSalary prefs job = true.
Proof.
  unfold filterJobs. rewrite list_elem_of_In, filter_In, !andb_true_iff.
  rewrite <- list_elem_of_In. tauto.
Qed.

Lemma filter_twice {A} (p : A → bool) (l : list A) :
  List.filter p (List.filter p l) = List.filter p l.
Proof.
  induction l as [|x l IH]; simpl; [done|].
  destruct (p x) eqn:Hp; simpl; [|done]. by rewrite Hp, IH.
Qed.

(** The filtered sequence is a subsequence of the listings, in their
    order; it holds exactly the listings that pass the three tests; and
    filtering it again changes nothing. *)
Theorem filterJobs_subsequence jobs criteria searchTerm prefs :
  sublist (filterJobs jobs criteria searchTerm prefs) jobs
  ∧ (∀ job,
       job ∈ filterJobs jobs criteria searchTerm prefs ↔
       job ∈ jobs ∧ matchesType criteria job = true
       ∧ matchesSearch searchTerm job = true
       ∧ matchesSalary prefs job = true)
  ∧ filterJobs (filterJobs jobs criteria searchTerm prefs)
      criteria searchTerm prefs
    = filterJobs jobs criteria searchTerm prefs.
Proof.
  split; [apply filterJobs_sublist|]. split; [apply filterJobs_elem|].
  unfold filterJobs. apply filter_twice.
Qed.

Lemma bool_eq_iff (a b : bool) : (a = true ↔ b = true) → a = b.
Proof. destruct a, b; intuition congruence. Qed.

Lemma matchesType_same_labels criteria criteria' job :
  (∀ label, label ∈ activeCriteriaTypes criteria
            ↔ label ∈ activeCriteriaTypes criteria') →
  matchesType criteria job = matchesType criteria' job.
Proof.
  intros Hsame. apply bool_eq_iff. unfold matchesType.
  by rewrite !arrayIncludes_spec.
Qed.

Lemma activeCriteriaTypes_Permutation criteria criteria' :
  criteria ≡ₚ criteria' →
  ∀ label, label ∈ activeCriteriaTypes criteria
           ↔ label ∈ activeCriteriaTypes criteria'.
Proof.
  intros Hperm label. rewrite !activeCriteriaTypes_spec.
  split; intros (c & Hin & H); exists c; split; try done.
  - by rewrite <- Hperm.
  - by rewrite Hperm.
Qed.

Lemma filterJobs_same_labels jobs criteria criteria' searchTerm prefs :
  (∀ job, matchesType criteria job = matchesType criteria' job) →
  filterJobs jobs criteria searchTerm prefs
  = filterJobs jobs criteria' searchTerm prefs.
Proof.
  intros Hsame. unfold filterJobs. apply filter_ext. intros job.
  by rewrite Hsame.
Qed.

(** What [handleDragEnd] did when it returned a state. *)
Lemma handleDragEnd_inv activeId overId st st' :
  handleDragEnd activeId overId st = Some st' →
  (activeId = overId ∧ st' = st)
  ∨ (activeId ≠ overId
     ∧ ∃ items, items ≡ₚ criteria st
                ∧ st' = rerender st (setCriteria items st)).
Proof.
  unfold handleDragEnd. destruct (String.eqb_spec activeId overId) as [->|Hne].
  - intros [= <-]. by left.
  - intros Hrun. right. split; [done|].
    destruct (mapM id (dragEndUpdater activeId overId (criteria st)))
      as [items|] eqn:Hmap; simplify_eq/=.
    exists items. split; [|done].
    destruct (criteria st) as [|c l] eqn:Hc; [by vm_compute in Hmap|].
    destruct (arrayMove_Permutation (c :: l)
                (findIndex (hasId activeId) (c :: l))
                (findIndex (hasId overId) (c :: l)))
      as (items' & Hmove & Hperm); [done | apply findIndex_range|].
    unfold dragEndUpdater in Hmap. rewrite Hmove in Hmap.
    rewrite mapM_fmap_Some in Hmap by done. by simplify_eq.
Qed.

(** The order of the criteria has no part in the filter: a permutation of
    them filters the same listings. So a drag that ends on another
    criterion leaves the filtered sequence as it was, though it sends the
    cursor back to 0. *)
Theorem reorder_keeps_deck activeId overId st st' :
  inSync st →
  handleDragEnd activeId overId st = Some st' →
  (∀ jobs criteria',
     criteria' ≡ₚ criteria st →
     filterJobs jobs criteria' (searchTerm st)
       (Profile.jobPreferences (profile st))
     = filterJobs jobs (criteria st) (searchTerm st)
         (Profile.jobPreferences (profile st)))
  ∧ criteria st' ≡ₚ criteria st
  ∧ filteredJobs st' = filteredJobs st
  ∧ savedJobs st' = savedJobs st
  ∧ (activeId ≠ overId → currentJobIndex st' = 0).
Proof.
  intros Hsync Hrun.
  assert (Hperm : ∀ jobs criteria',
     criteria' ≡ₚ criteria st →
     filterJobs jobs criteria' (searchTerm st)
       (Profile.jobPreferences (profile st))
     = filterJobs jobs (criteria st) (searchTerm st)
         (Profile.jobPreferences (profile st))).
  { intros jobs criteria' Hp. apply filterJobs_same_labels. intros job.
    by apply matchesType_same_labels, activeCriteriaTypes_Permutation. }
  split; [exact Hperm|].
  destruct (handleDragEnd_inv _ _ _ _ Hrun)
    as [[-> ->]|(Hne & items & Hitems & ->)]; [done|].
  rewrite rerender_criteria.
  destruct (rerender_resets st (setCriteria items st)) as [Hidx Hfj].
  split; [done|]. split; [|split].
  - rewrite Hfj, Hsync. by apply Hperm.
  - unfold rerender. by destruct (commit_fields st
                                    (filterEffect (setCriteria items st)))
      as (_ & _ & -> & _).
  - done.
Qed.

Lemma reorder_keeps_deck_witness :
  ∃ st',
    handleDragEnd "internship" "permanent" mounted = Some st'
    ∧ filteredJobs st' = filteredJobs mounted.
Proof.
  destruct (handleDragEnd "internship" "permanent" mounted) as [st'|] eqn:Hrun.
  - exists st'. split; [reflexivity|].
    destruct (reorder_keeps_deck "internship" "permanent" mounted st')
      as (_ & _ & Hfj & _).
    + reflexivity.
    + exact Hrun.
    + exact Hfj.
  - vm_compute in Hrun. discriminate.
Defined.

End FilterStructure.

(** * Further properties of the criteria handlers *)

Section Toggle.
Implicit Types (items criteria : list SearchCriteria.t) (st : State).
Implicit Types (c : SearchCriteria.t) (job : Job.t).

Lemma toggleCriteria_criteria id st :
  criteria (toggleCriteria id st) = toggled id (criteria st).
Proof. unfold toggleCriteria. by rewrite rerender_criteria. Qed.

Lemma toggled_lookup id items i c :
  items !! i = Some c →
  toggled id items !! i
  = Some (if String.eqb (SearchCriteria.id c) id
          then SearchCriteria.mk (SearchCriteria.id c)
                 (SearchCriteria.label c) (negb (SearchCriteria.active c))
          else c).
Proof.
  revert i. induction items as [|c' items IH]; intros [|i]; simpl; try done.
  - by intros [= ->].
  - apply IH.
Qed.

Lemma toggled_twice id items : toggled id (toggled id items) = items.
Proof.
  induction items as [|c items IH]; simpl; [done|]. rewrite IH. f_equal.
  destruct (String.eqb (SearchCriteria.id c) id) eqn:Heq; simpl.
  - rewrite Heq, negb_involutive. by destruct c.
  - by rewrite Heq.
Qed.

Lemma toggled_facets id items : facets (toggled id items) = facets items.
Proof.
  induction items as [|c items IH]; simpl; [done|]. rewrite IH. f_equal.
  by destruct (String.eqb (SearchCriteria.id c) id).
Qed.

Lemma toggled_absent id items : id ∉ idsOf items → toggled id items = items.
Proof.
  induction items as [|c items IH]; simpl; [done|].
  intros Hnot. apply not_elem_of_cons in Hnot as [Hne Hnot].
  rewrite IH by done. destruct (String.eqb_spec (SearchCriteria.id c) id); done.
Qed.

Lemma toggled_elem id items c' :
  c' ∈ toggled id items ↔
  ∃ c, c ∈ items
       ∧ c' = (if String.eqb (SearchCriteria.id c) id
               then SearchCriteria.mk (SearchCriteria.id c)
                      (SearchCriteria.label c) (negb (SearchCriteria.active c))
               else c).
Proof.
  unfold toggled. rewrite list_elem_of_In, in_map_iff.
  split; intros (c & H1 & H2); exists c.
  - by rewrite list_elem_of_In.
  - by rewrite <- list_elem_of_In.
Qed.

(** [toggleCriteria] negates the active flag of the criterion with the
    given identifier and of no other, keeps every identifier, label and
    position, and resets the cursor to 0; toggling twice restores the
    criteria; an identifier that no criterion has leaves the criteria as
    they are, the cursor being reset all the same. *)
Theorem toggleCriteria_flips id st :
  (∀ i c, criteria st !! i = Some c →
     ∃ c', criteria (toggleCriteria id st) !! i = Some c'
           ∧ SearchCriteria.id c' = SearchCriteria.id c
           ∧ SearchCriteria.label c' = SearchCriteria.label c
           ∧ SearchCriteria.active c'
             = (if String.eqb (SearchCriteria.id c) id
                then negb (SearchCriteria.active c)
                else SearchCriteria.active c))
  ∧ length (criteria (toggleCriteria id st)) = length (criteria st)
  ∧ criteria (toggleCriteria id (toggleCriteria id st)) = criteria st
  ∧ (id ∉ idsOf (criteria st) → criteria (toggleCriteria id st) = criteria st)
  ∧ currentJobIndex (toggleCriteria id st) = 0
  ∧ savedJobs (toggleCriteria id st) = savedJobs st.
Proof.
  split; [|split; [|split; [|split; [|split]]]].
  - intros i c Hc. rewrite toggleCriteria_criteria, (toggled_lookup _ _ _ _ Hc).
    eexists. split; [done|].
    by destruct (String.eqb (SearchCriteria.id c) id).
  - rewrite toggleCriteria_criteria. unfold toggled. by rewrite length_map.
  - by rewrite !toggleCriteria_criteria, toggled_twice.
  - intros Hnot. rewrite toggleCriteria_criteria. by apply toggled_absent.
  - apply rerender_resets.
  - change (toggleCriteria id st)
      with (commit st
              (filterEffect (setCriteria (toggled id (criteria st)) st))).
    by destruct (commit_fields st
                   (filterEffect (setCriteria (toggled id (criteria st)) st)))
      as (_ & _ & -> & _).
Qed.

Lemma toggleCriteria_flips_witness :
  criteria (toggleCriteria "unknown" mounted) = criteria mounted.
Proof.
  destruct (toggleCriteria_flips "unknown" mounted) as (_ & _ & _ & Habsent & _).
  apply Habsent. vm_compute. intros Hin.
  repeat (apply elem_of_cons in Hin as [Heq|Hin]; [discriminate|]).
  by apply not_elem_of_nil in Hin.
Defined.

Lemma matchesType_true criteria job :
  matchesType criteria job = true ↔
  ∃ c, c ∈ criteria ∧ SearchCriteria.active c = true
       ∧ sameIgnoringCase (SearchCriteria.label c) (Job.type job).
Proof.
  unfold matchesType, sameIgnoringCase.
  rewrite arrayIncludes_spec. apply activeCriteriaTypes_spec.
Qed.

Lemma matchesType_toggled criteria c job :
  c ∈ criteria →
  (∀ c', c' ∈ criteria →
     SearchCriteria.id c' = SearchCriteria.id c
     ∨ sameIgnoringCase (SearchCriteria.label c') (SearchCriteria.label c) →
     c' = c) →
  matchesType (toggled (SearchCriteria.id c) criteria) job
  = if SearchCriteria.active c
    then matchesType criteria job && negb (ofKind c job)
    else matchesType criteria job || ofKind c job.
Proof.
  intros Hc Huniq. apply bool_eq_iff.
  rewrite (matchesType_true (toggled (SearchCriteria.id c) criteria) job).
  assert (Hkind : ofKind c job = true
                  ↔ sameIgnoringCase (SearchCriteria.label c) (Job.type job)).
  { unfold ofKind, sameIgnoringCase. rewrite String.eqb_eq. split; congruence. }
  assert (Hold : matchesType criteria job = true ↔
     ∃ c0, c0 ∈ criteria ∧ SearchCriteria.active c0 = true
           ∧ sameIgnoringCase (SearchCriteria.label c0) (Job.type job))
    by apply matchesType_true.
  split.
  - intros (c' & Hin & Hact & Hlab).
    apply toggled_elem in Hin as (c0 & Hin0 & ->).
    destruct (String.eqb_spec (SearchCriteria.id c0) (SearchCriteria.id c))
      as [Heq|Hne].
    + assert (c0 = c) as -> by (apply Huniq; auto). simpl in Hact, Hlab.
      destruct (SearchCriteria.active c); [done|].
      apply orb_true_iff. right. by apply Hkind.
    + destruct (SearchCriteria.active c) eqn:Hactc.
      * apply andb_true_iff. split; [apply Hold; eauto|].
        apply negb_true_iff, not_true_is_false. intros Hk.
        apply Hkind in Hk. apply Hne. f_equal. apply Huniq; [done|]. right.
        unfold sameIgnoringCase in *. congruence.
      * apply orb_true_iff. left. apply Hold. eauto.
  - destruct (SearchCriteria.active c) eqn:Hactc.
    + rewrite andb_true_iff, negb_true_iff.
      intros [(c0 & Hin0 & Hact0 & Hlab0)%Hold Hk].
      exists c0. split; [|done]. apply toggled_elem. exists c0. split; [done|].
      destruct (String.eqb_spec (SearchCriteria.id c0) (SearchCriteria.id c))
        as [Heq|Hne]; [|done].
      assert (c0 = c) as -> by (apply Huniq; auto).
      apply Hkind in Hlab0. congruence.
    + rewrite orb_true_iff. intros [(c0 & Hin0 & Hact0 & Hlab0)%Hold|Hk].
      * exists c0. split; [|done]. apply toggled_elem. exists c0.
        split; [done|].
        destruct (String.eqb_spec (SearchCriteria.id c0) (SearchCriteria.id c))
          as [Heq|Hne]; [|done].
        assert (c0 = c) as -> by (apply Huniq; auto). congruence.
      * exists (SearchCriteria.mk (SearchCriteria.id c)
                  (SearchCriteria.label c) (negb (SearchCriteria.active c))).
        split; [|split].
        -- apply toggled_elem. exists c. split; [done|].
           by rewrite String.eqb_refl.
        -- simpl. by rewrite Hactc.
        -- simpl. by apply Hkind.
Qed.

Lemma filter_and {A} (p q : A → bool) (l : list A) :
  List.filter (fun x => p x && q x) l = List.filter q (List.filter p l).
Proof.
  induction l as [|x l IH]; simpl; [done|].
  destruct (p x); simpl; [|done]. destruct (q x); by rewrite IH.
Qed.

(** Switching an active criterion off takes out of the deck exactly the
    listings of its kind and keeps the others in their order; the cursor
    goes back to 0. This needs the criterion to be the only one with its
    identifier and, up to case, with its label. *)
Theorem toggle_off_hides_kind st c :
  inSync st →
  c ∈ criteria st →
  SearchCriteria.active c = true →
  (∀ c', c' ∈ criteria st →
     SearchCriteria.id c' = SearchCriteria.id c
     ∨ sameIgnoringCase (SearchCriteria.label c') (SearchCriteria.label c) →
     c' = c) →
  filteredJobs (toggleCriteria (SearchCriteria.id c) st)
  = List.filter (fun job => negb (ofKind c job)) (filteredJobs st)
  ∧ currentJobIndex (toggleCriteria (SearchCriteria.id c) st) = 0.
Proof.
  intros Hsync Hc Hact Huniq. split; [|apply rerender_resets].
  change (toggleCriteria (SearchCriteria.id c) st)
    with (rerender st
            (setCriteria (toggled (SearchCriteria.id c) (criteria st)) st)).
  destruct (rerender_resets st
              (setCriteria (toggled (SearchCriteria.id c) (criteria st)) st))
    as [_ ->].
  rewrite Hsync. unfold filterJobs.
  change (criteria (setCriteria ?x st)) with x.
  change (searchTerm (setCriteria ?x st)) with (searchTerm st).
  change (profile (setCriteria ?x st)) with (profile st).
  rewrite <- filter_and. apply filter_ext. intros job.
  rewrite (matchesType_toggled (criteria st) c job Hc Huniq), Hact.
  destruct (matchesType (criteria st) job), (matchesSearch (searchTerm st) job),
    (matchesSalary (Profile.jobPreferences (profile st)) job),
    (ofKind c job); reflexivity.
Qed.

Lemma toggle_off_hides_kind_witness :
  map Job.id (filteredJobs (toggleCriteria "internship" mounted))
  = [1%Z; 3%Z; 4%Z].
Proof.
  destruct (toggle_off_hides_kind mounted
              (SearchCriteria.mk "internship" "Internship" true))
    as [Hfj _].
  - reflexivity.
  - vm_compute. do 3 apply list_elem_of_further. apply list_elem_of_here.
  - reflexivity.
  - intros c' Hin Hsame. vm_compute in Hin.
    repeat (apply elem_of_cons in Hin as [->|Hin];
            [destruct Hsame as [Hs|Hs]; vm_compute in Hs;
             first [reflexivity | discriminate]|]).
    by apply not_elem_of_nil in Hin.
  - simpl SearchCriteria.id in Hfj. rewrite Hfj. vm_compute. reflexivity.
Defined.

End Toggle.

Section DragBack.
Implicit Types (items : list SearchCriteria.t) (st : State).
Implicit Types (c x y z : SearchCriteria.t).

Lemma idsOf_fmap items : idsOf items = SearchCriteria.id <$> items.
Proof. reflexivity. Qed.

Lemma idsOf_lookup items k c :
  items !! k = Some c → idsOf items !! k = Some (SearchCriteria.id c).
Proof. intros Hc. by rewrite idsOf_fmap, list_lookup_fmap, Hc. Qed.

Lemma ids_differ items i j x y :
  NoDup (idsOf items) → items !! i = Some x → items !! j = Some y →
  i ≠ j → SearchCriteria.id x ≠ SearchCriteria.id y.
Proof.
  intros Hnd Hx Hy Hij Heq. apply Hij.
  apply (NoDup_lookup _ _ _ (SearchCriteria.id x) Hnd).
  - by apply idsOf_lookup.
  - rewrite Heq. by apply idsOf_lookup.
Qed.

(** With distinct identifiers [findIndex] finds each criterion where it
    is. *)
Lemma findIndex_NoDup items k c :
  NoDup (idsOf items) → items !! k = Some c →
  findIndex (hasId (SearchCriteria.id c)) items = Z.of_nat k.
Proof.
  revert k. induction items as [|c0 items IH]; intros k Hnd Hc; [done|].
  rewrite idsOf_fmap, fmap_cons in Hnd. apply NoDup_cons in Hnd as [Hnot Hnd].
  destruct k as [|k]; simpl in *.
  - simplify_eq. unfold hasId. by rewrite String.eqb_refl.
  - destruct (hasId (SearchCriteria.id c) c0) eqn:Hp.
    + apply hasId_true in Hp. exfalso. apply Hnot. rewrite Hp.
      apply list_elem_of_fmap. exists c. split; [done|].
      by apply list_elem_of_lookup_2 in Hc.
    + rewrite (IH k Hnd Hc). destruct (Z.ltb_spec (Z.of_nat k) 0); lia.
Qed.

Lemma insertAt_same i x (l : list SearchCriteria.t) :
  l !! i = Some x → insertAt i x (delete i l) = l.
Proof.
  intros Hx. pose proof (lookup_lt_Some _ _ _ Hx) as Hlt.
  unfold insertAt. rewrite delete_take_drop.
  rewrite take_app_length', drop_app_length'
    by (rewrite length_take; lia).
  by apply take_drop_middle.
Qed.

(** Dragging a criterion onto another and then back onto the criterion
    that took its place restores the order, provided the identifiers are
    distinct. *)
Theorem drag_back_restores st i j x y :
  NoDup (idsOf (criteria st)) →
  criteria st !! i = Some x →
  criteria st !! j = Some y →
  i ≠ j →
  ∃ st1 z st2,
    handleDragEnd (SearchCriteria.id x) (SearchCriteria.id y) st = Some st1
    ∧ criteria st1 !! j = Some x
    ∧ criteria st1 !! i = Some z
    ∧ handleDragEnd (SearchCriteria.id x) (SearchCriteria.id z) st1 = Some st2
    ∧ criteria st2 = criteria st.
Proof.
  intros Hnd Hx Hy Hij.
  pose proof (lookup_lt_Some _ _ _ Hx) as Hilt.
  pose proof (lookup_lt_Some _ _ _ Hy) as Hjlt.
  assert (Hlen : length (delete i (criteria st)) = length (criteria st) - 1)
    by (apply length_delete; eauto).
  set (items1 := insertAt j x (delete i (criteria st))).
  assert (Hperm : items1 ≡ₚ criteria st) by by apply insertAt_Permutation.
  assert (Hnd1 : NoDup (idsOf items1)).
  { rewrite idsOf_fmap, Hperm, <- idsOf_fmap. done. }
  assert (Hj1 : items1 !! j = Some x) by (apply insertAt_lookup; lia).
  destruct (lookup_lt_is_Some_2 items1 i) as [z Hz].
  { rewrite Hperm. done. }
  destruct (handleDragEnd_defined (SearchCriteria.id x) (SearchCriteria.id y)
              st items1) as (st1 & Hrun1 & Hc1).
  { by apply (ids_differ (criteria st) i j). }
  { unfold dragEndUpdater.
    rewrite (findIndex_NoDup _ i x), (findIndex_NoDup _ j y) by done.
    by apply arrayMove_in_range. }
  destruct (handleDragEnd_defined (SearchCriteria.id x) (SearchCriteria.id z)
              st1 (criteria st)) as (st2 & Hrun2 & Hc2).
  { apply (ids_differ items1 j i); auto. }
  { unfold dragEndUpdater. rewrite Hc1.
    rewrite (findIndex_NoDup _ j x), (findIndex_NoDup _ i z) by done.
    rewrite (arrayMove_in_range items1 j i x) by (rewrite ?Hperm; done).
    f_equal. unfold items1. rewrite insertAt_delete by lia.
    by apply insertAt_same. }
  exists st1, z, st2. by rewrite Hc1.
Qed.

Lemma drag_back_restores_witness :
  ∃ st1 st2,
    handleDragEnd "fixed-term" "internship" mounted = Some st1
    ∧ handleDragEnd "fixed-term" "temporary" st1 = Some st2
    ∧ criteria st2 = criteria mounted.
Proof.
  destruct (drag_back_restores mounted 1 3
              (SearchCriteria.mk "fixed-term" "Fixed-term" true)
              (SearchCriteria.mk "internship" "Internship" true))
    as (st1 & z & st2 & Hrun1 & _ & Hz & Hrun2 & Hsame).
  - vm_compute. repeat constructor; intros Hin;
      repeat (apply elem_of_cons in Hin as [Heq|Hin]; [discriminate|]);
      by apply not_elem_of_nil in Hin.
  - reflexivity.
  - reflexivity.
  - lia.
  - exists st1, st2. split; [exact Hrun1|].
    assert (z = SearchCriteria.mk "temporary" "Temporary" true) as ->.
    { assert (Hst1 : handleDragEnd "fixed-term" "internship" mounted
                     = Some (rerender mounted
                               (setCriteria
                                  [ SearchCriteria.mk "permanent" "Permanent" true;
                                    SearchCriteria.mk "temporary" "Temporary" true;
                                    SearchCriteria.mk "internship" "Internship" true;
                                    SearchCriteria.mk "fixed-term" "Fixed-term" true ]
                                  mounted)))
        by (vm_compute; reflexivity).
      simpl SearchCriteria.id in Hrun1. rewrite Hst1 in Hrun1.
      injection Hrun1 as <-. rewrite rerender_criteria in Hz.
      simpl in Hz. congruence. }
    split; [exact Hrun2 | exact Hsame].
Defined.

End DragBack.

(** * What every run keeps *)

Section Runs.
Implicit Types (st s : State) (cl : Closure) (t : Timer) (e : Event).

Ltac fields :=
  cbn [currentJobIndex animation savedJobs profile criteria searchTerm
       filteredJobs keyListener now timers setCurrentJobIndex setAnimation
       setSavedJobs setProfile setCriteria setSearchTerm setFilteredJobs
       setKeyListener setClock setTimeout closureOf cl_filteredJobs
       cl_currentJobIndex filterEffect] in *.

Lemma run_preserves (P : State → Prop) :
  (∀ e st st', P st → step e st = Some st' → P st') →
  ∀ es st st', P st → run es st = Some st' → P st'.
Proof.
  intros Hstep es. induction es as [|e es IH]; intros st st' HP; simpl.
  - by intros [= <-].
  - destruct (step e st) as [st1|] eqn:He; [|done]. simpl.
    apply IH. by apply (Hstep e st).
Qed.

Lemma rerender_fields prev s :
  animation (rerender prev s) = animation s
  ∧ savedJobs (rerender prev s) = savedJobs s
  ∧ now (rerender prev s) = now s
  ∧ timers (rerender prev s) = timers s
  ∧ criteria (rerender prev s) = criteria s
  ∧ searchTerm (rerender prev s) = searchTerm s
  ∧ profile (rerender prev s) = profile s
  ∧ keyListener (rerender prev s)
    = (if currentJobIndex prev =? 0 then keyListener s
       else mkClosure (filteredJobs (rerender prev s)) 0).
Proof.
  unfold rerender, commit. fields.
  destruct (currentJobIndex prev) as [|k]; by repeat split.
Qed.

Lemma timerCallback_inputs t s :
  criteria (timerCallback t s) = criteria s
  ∧ searchTerm (timerCallback t s) = searchTerm s
  ∧ profile (timerCallback t s) = profile s
  ∧ (keyListener (timerCallback t s) = keyListener s
     ∧ currentJobIndex (timerCallback t s) = currentJobIndex s
     ∨ keyListener (timerCallback t s) = closureOf (timerCallback t s)).
Proof.
  unfold timerCallback, commit. fields.
  destruct (_ =? _) eqn:Heq; fields; repeat split; auto.
  left. split; [done|]. by apply Nat.eqb_eq in Heq.
Qed.

Lemma callbacks_frame ts :
  ∀ s,
    animation (foldl (fun s t => timerCallback t s) s ts)
      = (if ts is [] then animation s else None)
    ∧ savedJobs (foldl (fun s t => timerCallback t s) s ts) = savedJobs s
    ∧ filteredJobs (foldl (fun s t => timerCallback t s) s ts) = filteredJobs s
    ∧ now (foldl (fun s t => timerCallback t s) s ts) = now s
    ∧ timers (foldl (fun s t => timerCallback t s) s ts) = timers s
    ∧ criteria (foldl (fun s t => timerCallback t s) s ts) = criteria s
    ∧ searchTerm (foldl (fun s t => timerCallback t s) s ts) = searchTerm s
    ∧ profile (foldl (fun s t => timerCallback t s) s ts) = profile s.
Proof.
  induction ts as [|t ts IH]; intros s; simpl; [done|].
  destruct (IH (timerCallback t s)) as (-> & -> & -> & -> & -> & -> & -> & ->).
  destruct (timerCallback_fields t s) as (_ & -> & -> & -> & -> & ->).
  destruct (timerCallback_inputs t s) as (-> & -> & -> & _).
  by destruct ts.
Qed.

Lemma callbacks_preserve (P : State → Prop) ts :
  (∀ t s, P s → P (timerCallback t s)) →
  ∀ s, P s → P (foldl (fun s t => timerCallback t s) s ts).
Proof.
  intros Hcb. induction ts as [|t ts IH]; intros s HP; simpl; [done|].
  by apply IH, Hcb.
Qed.

(** What [handleSwipe] did when it returned a state. *)
Lemma handleSwipe_inv cl d st st' :
  handleSwipe cl d st = Some st' →
  st' = st
  ∨ ∃ saved,
      st' = setTimeout 300 (cl_filteredJobs cl)
              (setSavedJobs saved (setAnimation (Some (animationOf d)) st))
      ∧ (saved = savedJobs st
         ∨ d = Direction.right
           ∧ ∃ job, job ∈ cl_filteredJobs cl
                    ∧ saved = savedJobs st ∪ {[Job.id job]}).
Proof.
  unfold handleSwipe. destruct (_ =? _); [intros [= <-]; by left|].
  intros Hrun. right. destruct d; simpl in Hrun.
  - simplify_eq. exists (savedJobs st). split; [done | by left].
  - destruct (cl_filteredJobs cl !! cl_currentJobIndex cl) as [job|] eqn:Hjob;
      simplify_eq/=.
    exists (savedJobs st ∪ {[Job.id job]}). rewrite addSaved_union.
    split; [done|]. right. split; [done|]. exists job. split; [|done].
    by apply list_elem_of_lookup_2 in Hjob.
Qed.

Lemma filterJobs_fromListings criteria searchTerm prefs :
  fromListings (filterJobs DUMMY_JOBS criteria searchTerm prefs).
Proof. intros job Hin. by apply filterJobs_elem in Hin as [? _]. Qed.

Lemma wellFormed_fromListings st : wellFormed st → fromListings (filteredJobs st).
Proof. intros (-> & _). apply filterJobs_fromListings. Qed.

Lemma wellFormed_rerender prev s :
  facets (criteria s) ≡ₚ facets INITIAL_CRITERIA →
  cl_currentJobIndex (keyListener s) = currentJobIndex prev →
  fromListings (cl_filteredJobs (keyListener s)) →
  (∀ jobId, jobId ∈ savedJobs s → jobId ∈ map Job.id DUMMY_JOBS) →
  wellFormed (rerender prev s).
Proof.
  intros Hfacets Hidx Hfrom Hsaved.
  destruct (rerender_resets prev s) as [Hi Hfj].
  destruct (rerender_fields prev s)
    as (_ & Hs & _ & _ & Hc & Hterm & Hp & Hkey).
  unfold wellFormed, inSync. rewrite Hi, Hfj, Hs, Hc, Hterm, Hp, Hkey.
  split; [done|]. split; [done|].
  destruct (Nat.eqb_spec (currentJobIndex prev) 0) as [H0|_]; fields.
  - split; [congruence|]. done.
  - split; [done|]. split; [|done]. rewrite Hfj. apply filterJobs_fromListings.
Qed.

Lemma wellFormed_timerCallback t s : wellFormed s → wellFormed (timerCallback t s).
Proof.
  intros Hwf. pose proof (wellFormed_fromListings _ Hwf) as Hfrom.
  destruct Hwf as (Hsync & Hfacets & Hidx & Hkey & Hsaved).
  destruct (timerCallback_fields t s) as (_ & _ & Hs & Hfj & _ & _).
  destruct (timerCallback_inputs t s) as (Hc & Hterm & Hp & Hlisten).
  unfold wellFormed, inSync. rewrite Hs, Hfj, Hc, Hterm, Hp.
  split; [done|]. split; [done|].
  destruct Hlisten as [[-> ->]| ->]; [done|]. fields.
  split; [done|]. split; [|done]. by rewrite Hfj.
Qed.

Lemma wellFormed_handleSwipe cl d st st' :
  fromListings (cl_filteredJobs cl) → wellFormed st →
  handleSwipe cl d st = Some st' → wellFormed st'.
Proof.
  intros Hcl Hwf Hrun.
  destruct (handleSwipe_inv _ _ _ _ Hrun) as [->|(saved & -> & Hsaved)];
    [done|].
  destruct Hwf as (Hsync & Hfacets & Hidx & Hkey & Hids).
  unfold wellFormed, inSync. fields. repeat split; try done.
  intros jobId Hin. destruct Hsaved as [->|(_ & job & Hjob & ->)]; [auto|].
  apply elem_of_union in Hin as [Hin|Hin]; [auto|].
  apply elem_of_singleton in Hin as ->.
  apply list_elem_of_In, in_map, list_elem_of_In. auto.
Qed.

Lemma wellFormed_elapse n st : wellFormed st → wellFormed (elapse n st).
Proof.
  intros Hwf. unfold elapse.
  apply callbacks_preserve; [apply wellFormed_timerCallback|].
  destruct Hwf as (Hsync & Hfacets & Hidx & Hkey & Hids).
  unfold wellFormed, inSync. fields. by repeat split.
Qed.

Lemma facets_Permutation (items items' : list SearchCriteria.t) :
  items ≡ₚ items' → facets items ≡ₚ facets items'.
Proof. intros Hperm. unfold facets. by apply Permutation_map. Qed.

Lemma wellFormed_step e st st' :
  wellFormed st → step e st = Some st' → wellFormed st'.
Proof.
  intros Hwf Hstep. pose proof (wellFormed_fromListings _ Hwf) as Hfrom.
  pose proof Hwf as (Hsync & Hfacets & Hidx & Hkey & Hids).
  destruct e; simpl in Hstep.
  - by apply (wellFormed_handleSwipe (closureOf st) direction st).
  - unfold handleKeyPress in Hstep.
    destruct (String.eqb key "ArrowLeft");
      [by apply (wellFormed_handleSwipe (keyListener st) Direction.left st)|].
    destruct (String.eqb key "ArrowRight");
      [by apply (wellFormed_handleSwipe (keyListener st) Direction.right st)|].
    by simplify_eq.
  - simplify_eq.
    change (toggleCriteria id st)
      with (rerender st (setCriteria (toggled id (criteria st)) st)).
    apply wellFormed_rerender; fields; try done. by rewrite toggled_facets.
  - destruct (handleDragEnd_inv _ _ _ _ Hstep)
      as [[_ ->]|(_ & items & Hitems & ->)]; [done|].
    apply wellFormed_rerender; fields; try done.
    by rewrite (facets_Permutation _ _ Hitems).
  - simplify_eq. unfold onSearchChange.
    destruct (String.eqb value (searchTerm st)); [done|].
    by apply wellFormed_rerender.
  - simplify_eq. by apply wellFormed_rerender.
  - simplify_eq. by apply wellFormed_rerender.
  - simplify_eq. by apply wellFormed_rerender.
  - simplify_eq. unfold wellFormed, inSync, handleRemoveSaved. fields.
    repeat split; try done. intros x Hin. apply Hids. set_solver.
  - simplify_eq. by apply wellFormed_elapse.
Qed.

Lemma wellFormed_mounted : wellFormed mounted.
Proof.
  unfold wellFormed, inSync. split; [reflexivity|]. split; [reflexivity|].
  split; [reflexivity|]. split; [by intros job Hin|].
  intros jobId Hin. by apply not_elem_of_empty in Hin.
Qed.

Lemma reachable_wellFormed st : reachable st → wellFormed st.
Proof.
  intros (es & Hrun).
  apply (run_preserves wellFormed wellFormed_step es mounted st);
    [apply wellFormed_mounted | done].
Qed.

End Runs.

Section Settling.
Implicit Types (st s : State) (e : Event).

Ltac fields :=
  cbn [currentJobIndex animation savedJobs profile criteria searchTerm
       filteredJobs keyListener now timers setCurrentJobIndex setAnimation
       setSavedJobs setProfile setCriteria setSearchTerm setFilteredJobs
       setKeyListener setClock setTimeout closureOf cl_filteredJobs
       cl_currentJobIndex filterEffect] in *.

Lemma elapse_fields n st :
  timers (elapse n st)
    = List.filter (fun t => negb (due t <=? now st + n)) (timers st)
  ∧ now (elapse n st) = now st + n
  ∧ animation (elapse n st)
    = (if List.filter (fun t => due t <=? now st + n) (timers st) is []
       then animation st else None)
  ∧ savedJobs (elapse n st) = savedJobs st
  ∧ filteredJobs (elapse n st) = filteredJobs st.
Proof.
  unfold elapse.
  destruct (callbacks_frame
              (List.filter (fun t => due t <=? now st + n) (timers st))
              (setClock (now st + n)
                 (List.filter (fun t => negb (due t <=? now st + n))
                    (timers st)) st))
    as (-> & -> & -> & -> & -> & _).
  by fields.
Qed.

Lemma elapse_settling n st : settling st → settling (elapse n st).
Proof.
  intros [Hdue Hrest]. unfold settling.
  destruct (elapse_fields n st) as (-> & -> & -> & _). split.
  - apply Forall_forall. intros t Hin.
    apply list_elem_of_In, filter_In in Hin as [Hin _].
    apply list_elem_of_In in Hin.
    pose proof (proj1 (Forall_forall _ _) Hdue t Hin). simpl in *. lia.
  - intros Hnone.
    destruct (List.filter (fun t => due t <=? now st + n) (timers st))
      eqn:Hfired; [|done].
    apply Hrest. pose proof (filter_due_length (now st + n) (timers st)) as Hlen.
    rewrite Hfired, Hnone in Hlen. simpl in Hlen.
    by destruct (timers st).
Qed.

Lemma elapse_clears st :
  settling st → animation (elapse 300 st) = None ∧ timers (elapse 300 st) = [].
Proof.
  intros Hs. destruct (elapse_settling 300 st Hs) as [_ Hrest].
  assert (Hnone : timers (elapse 300 st) = []).
  { destruct (elapse_fields 300 st) as (-> & _). apply filter_all_due.
    by destruct Hs. }
  split; [by apply Hrest | done].
Qed.

Lemma settling_handleSwipe cl d st st' :
  settling st → handleSwipe cl d st = Some st' → settling st'.
Proof.
  intros [Hdue Hrest] Hrun.
  destruct (handleSwipe_inv _ _ _ _ Hrun) as [->|(saved & -> & _)]; [done|].
  unfold settling. fields. split.
  - apply Forall_app. split; [done|]. apply Forall_singleton. simpl. lia.
  - intros Hnil. by apply app_nil in Hnil as [_ ?].
Qed.

Lemma settling_rerender prev s : settling s → settling (rerender prev s).
Proof.
  intros Hs. unfold settling.
  by destruct (rerender_fields prev s) as (-> & _ & -> & -> & _).
Qed.

Lemma settling_step e st st' :
  settling st → step e st = Some st' → settling st'.
Proof.
  intros Hs Hstep. destruct e; simpl in Hstep.
  - by apply (settling_handleSwipe (closureOf st) direction st).
  - unfold handleKeyPress in Hstep.
    destruct (String.eqb key "ArrowLeft");
      [by apply (settling_handleSwipe (keyListener st) Direction.left st)|].
    destruct (String.eqb key "ArrowRight");
      [by apply (settling_handleSwipe (keyListener st) Direction.right st)|].
    by simplify_eq.
  - simplify_eq.
    change (toggleCriteria id st)
      with (rerender st (setCriteria (toggled id (criteria st)) st)).
    by apply settling_rerender.
  - destruct (handleDragEnd_inv _ _ _ _ Hstep)
      as [[_ ->]|(_ & items & _ & ->)]; [done|].
    by apply settling_rerender.
  - simplify_eq. unfold onSearchChange.
    destruct (String.eqb value (searchTerm st)); [done|].
    by apply settling_rerender.
  - simplify_eq. by apply settling_rerender.
  - simplify_eq. by apply settling_rerender.
  - simplify_eq. by apply settling_rerender.
  - by simplify_eq.
  - simplify_eq. by apply elapse_settling.
Qed.

Lemma reachable_settling st : reachable st → settling st.
Proof.
  intros (es & Hrun).
  apply (run_preserves settling settling_step es mounted st); [|done].
  split; [constructor | done].
Qed.

(** In every state of a run the transition is never stuck: the marker is
    set only while a callback is pending, every pending callback is due
    within 300 time units, and 300 time units later the marker is none
    and nothing is pending. *)
Theorem transition_always_ends st :
  reachable st →
  (timers st = [] → animation st = None)
  ∧ Forall (fun t => due t ≤ now st + 300) (timers st)
  ∧ animation (elapse 300 st) = None
  ∧ timers (elapse 300 st) = [].
Proof.
  intros Hreach. pose proof (reachable_settling st Hreach) as Hs.
  destruct (elapse_clears st Hs) as [Hanim Hnone].
  destruct Hs as [Hdue Hrest]. done.
Qed.

Lemma transition_always_ends_witness :
  ∃ st,
    run [ClickSwipe Direction.right; Elapse 120; KeyDown "ArrowLeft";
         ToggleCriteria "temporary"] mounted = Some st
    ∧ animation (elapse 300 st) = None
    ∧ timers (elapse 300 st) = [].
Proof.
  destruct (run [ClickSwipe Direction.right; Elapse 120; KeyDown "ArrowLeft";
                 ToggleCriteria "temporary"] mounted) as [st|] eqn:Hrun.
  - exists st. split; [reflexivity|].
    destruct (transition_always_ends st) as (_ & _ & Hanim & Hnone).
    + by eexists.
    + split; [exact Hanim | exact Hnone].
  - vm_compute in Hrun. discriminate.
Defined.

End Settling.

Section Reachable.
Implicit Types (st s : State) (e : Event) (job : Job.t).

Ltac fields :=
  cbn [currentJobIndex animation savedJobs profile criteria searchTerm
       filteredJobs keyListener now timers setCurrentJobIndex setAnimation
       setSavedJobs setProfile setCriteria setSearchTerm setFilteredJobs
       setKeyListener setClock setTimeout closureOf cl_filteredJobs
       cl_currentJobIndex filterEffect] in *.

(** In every state of a run the filtered sequence is the filter of the
    criteria, search term and preferences of that state, and so a
    subsequence of the listings: no handler leaves the deck out of date. *)
Theorem deck_in_sync st :
  reachable st →
  filteredJobs st
  = filterJobs DUMMY_JOBS (criteria st) (searchTerm st)
      (Profile.jobPreferences (profile st))
  ∧ sublist (filteredJobs st) DUMMY_JOBS.
Proof.
  intros Hreach. destruct (reachable_wellFormed st Hreach) as (Hsync & _).
  split; [exact Hsync|]. rewrite Hsync. apply filterJobs_sublist.
Qed.

Lemma deck_in_sync_witness :
  ∃ st,
    run [ClickSwipe Direction.left; SearchChange "dev"; Elapse 300;
         RemoteOnlyChange true; RemoteOnlyChange false] mounted = Some st
    ∧ sublist (filteredJobs st) DUMMY_JOBS.
Proof.
  destruct (run [ClickSwipe Direction.left; SearchChange "dev"; Elapse 300;
                 RemoteOnlyChange true; RemoteOnlyChange false] mounted)
    as [st|] eqn:Hrun.
  - exists st. split; [reflexivity|].
    destruct (deck_in_sync st) as [_ Hsub]; [by eexists | exact Hsub].
  - vm_compute in Hrun. discriminate.
Defined.

Lemma facets_ids (items : list SearchCriteria.t) :
  map fst (facets items) = idsOf items.
Proof. unfold facets, idsOf. rewrite map_map. by apply map_ext. Qed.

(** In every state of a run the criteria are the four initial ones, each
    with its identifier and its label, in some order: there are four of
    them, their identifiers are distinct, and a drag between any two
    identifiers returns a state (nothing undefined enters the list). *)
Theorem criteria_are_kept st :
  reachable st →
  facets (criteria st) ≡ₚ facets INITIAL_CRITERIA
  ∧ length (criteria st) = 4
  ∧ NoDup (idsOf (criteria st))
  ∧ ∀ activeId overId, ∃ st', handleDragEnd activeId overId st = Some st'.
Proof.
  intros Hreach. destruct (reachable_wellFormed st Hreach) as (_ & Hfacets & _).
  assert (Hlen : length (criteria st) = 4).
  { apply Permutation_length in Hfacets. unfold facets in Hfacets.
    by rewrite !length_map in Hfacets. }
  split; [done|]. split; [done|]. split.
  - rewrite <- facets_ids.
    rewrite (Permutation_map fst Hfacets).
    apply (bool_decide_unpack _). vm_compute. exact I.
  - intros activeId overId.
    destruct (String.eqb_spec activeId overId) as [->|Hne].
    + exists st. unfold handleDragEnd. by rewrite String.eqb_refl.
    + destruct (arrayMove_Permutation (criteria st)
                  (findIndex (hasId activeId) (criteria st))
                  (findIndex (hasId overId) (criteria st)))
        as (items' & Hmove & _).
      * intros Hnil. by rewrite Hnil in Hlen.
      * apply findIndex_range.
      * destruct (handleDragEnd_defined activeId overId st items' Hne Hmove)
          as (st' & Hrun & _). by exists st'.
Qed.

Lemma criteria_are_kept_witness :
  ∃ st,
    run [DragEnd "temporary" "permanent"; ToggleCriteria "internship";
         DragEnd "nobody" "permanent"] mounted = Some st
    ∧ length (criteria st) = 4.
Proof.
  destruct (run [DragEnd "temporary" "permanent"; ToggleCriteria "internship";
                 DragEnd "nobody" "permanent"] mounted) as [st|] eqn:Hrun.
  - exists st. split; [reflexivity|].
    destruct (criteria_are_kept st) as (_ & Hlen & _);
      [by eexists | exact Hlen].
  - vm_compute in Hrun. discriminate.
Defined.

(** In every state of a run the keydown listener holds the index on
    screen: only the sequence it reads can be out of date. Whenever that
    sequence is the one on screen, an arrow key does exactly what the
    button does. *)
Theorem listener_index_is_current st :
  reachable st →
  cl_currentJobIndex (keyListener st) = currentJobIndex st
  ∧ fromListings (cl_filteredJobs (keyListener st))
  ∧ (cl_filteredJobs (keyListener st) = filteredJobs st →
     handleKeyPress "ArrowLeft" st = clickSwipe Direction.left st
     ∧ handleKeyPress "ArrowRight" st = clickSwipe Direction.right st).
Proof.
  intros Hreach.
  destruct (reachable_wellFormed st Hreach) as (_ & _ & Hidx & Hfrom & _).
  split; [done|]. split; [done|]. intros Hseq.
  apply handleKeyPress_current. unfold closureOf. rewrite <- Hseq, <- Hidx.
  by destruct (keyListener st).
Qed.

Lemma listener_index_is_current_witness :
  ∃ st,
    run [KeyDown "ArrowRight"; Elapse 300; ToggleCriteria "permanent";
         ClickSwipe Direction.left; Elapse 300] mounted = Some st
    ∧ cl_currentJobIndex (keyListener st) = currentJobIndex st.
Proof.
  destruct (run [KeyDown "ArrowRight"; Elapse 300; ToggleCriteria "permanent";
                 ClickSwipe Direction.left; Elapse 300] mounted)
    as [st|] eqn:Hrun.
  - exists st. split; [reflexivity|].
    destruct (listener_index_is_current st) as (Hidx & _);
      [by eexists | exact Hidx].
  - vm_compute in Hrun. discriminate.
Defined.

Lemma savedJobsList_elem st job :
  job ∈ savedJobsList st ↔ job ∈ DUMMY_JOBS ∧ Job.id job ∈ savedJobs st.
Proof.
  unfold savedJobsList. rewrite list_elem_of_In, filter_In, <- list_elem_of_In.
  by rewrite bool_decide_eq_true.
Qed.

Lemma saved_count (jobs : list Job.t) :
  ∀ saved : gset Z,
    NoDup (map Job.id jobs) →
    (∀ x, x ∈ saved → x ∈ map Job.id jobs) →
    length (List.filter (fun job => bool_decide (Job.id job ∈ saved)) jobs)
    = size saved.
Proof.
  induction jobs as [|j jobs IH]; intros saved Hnd Hsub; simpl.
  - symmetry. apply size_empty_iff, elem_of_equiv_empty. intros x Hx.
    by apply Hsub, not_elem_of_nil in Hx.
  - simpl in Hnd. apply NoDup_cons in Hnd as [Hnot Hnd].
    assert (Hext : List.filter
                     (fun job => bool_decide (Job.id job ∈ saved)) jobs
                   = List.filter
                       (fun job => bool_decide
                                     (Job.id job ∈ saved ∖ {[Job.id j]})) jobs).
    { apply filter_ext_in. intros job Hin. apply bool_decide_ext.
      assert (Job.id job ≠ Job.id j).
      { intros Heq. apply Hnot. rewrite <- Heq.
        by apply list_elem_of_In, in_map. }
      set_solver. }
    rewrite Hext.
    assert (Hrest : length
                      (List.filter
                         (fun job => bool_decide
                                       (Job.id job ∈ saved ∖ {[Job.id j]}))
                         jobs)
                    = size (saved ∖ {[Job.id j]})).
    { apply IH; [done|]. intros x Hx.
      apply elem_of_difference in Hx as [Hx Hne].
      apply Hsub, elem_of_cons in Hx as [->|Hx]; [|done]. set_solver. }
    destruct (decide (Job.id j ∈ saved)) as [Hin|Hout].
    + rewrite bool_decide_true by done. simpl. rewrite Hrest.
      rewrite size_difference by set_solver. rewrite size_singleton.
      assert (size saved ≠ 0); [|lia].
      intros H0. apply size_empty_iff in H0. set_solver.
    + rewrite bool_decide_false by done. rewrite Hrest. f_equal. set_solver.
Qed.

(** The saved view lists the listings whose identifier is saved, in the
    order of the listings, whatever the filter hides; in every state of a
    run each saved identifier has its card there, so the number in the
    header is the number of cards. *)
Theorem saved_view_matches_count st :
  reachable st →
  (∀ job, job ∈ savedJobsList st
          ↔ job ∈ DUMMY_JOBS ∧ Job.id job ∈ savedJobs st)
  ∧ sublist (savedJobsList st) DUMMY_JOBS
  ∧ (∀ jobId, jobId ∈ savedJobs st →
       ∃ job, job ∈ savedJobsList st ∧ Job.id job = jobId)
  ∧ length (savedJobsList st) = size (savedJobs st).
Proof.
  intros Hreach.
  destruct (reachable_wellFormed st Hreach) as (_ & _ & _ & _ & Hids).
  split; [apply savedJobsList_elem|]. split; [|split].
  - unfold savedJobsList. generalize DUMMY_JOBS. intros jobs.
    induction jobs as [|j jobs IH]; simpl; [done|].
    destruct (bool_decide _); by constructor.
  - intros jobId Hin. pose proof (Hids jobId Hin) as Hjob.
    apply list_elem_of_In, in_map_iff in Hjob as (job & Hid & Hjob).
    exists job. split; [|done]. apply savedJobsList_elem.
    split; [by apply list_elem_of_In | by rewrite Hid].
  - apply saved_count; [|done].
    apply (bool_decide_unpack _). vm_compute. exact I.
Qed.

Lemma saved_view_matches_count_witness :
  ∃ st,
    run [ClickSwipe Direction.right; Elapse 300; ClickSwipe Direction.right;
         ToggleCriteria "permanent"; Elapse 300] mounted = Some st
    ∧ length (savedJobsList st) = size (savedJobs st).
Proof.
  destruct (run [ClickSwipe Direction.right; Elapse 300;
                 ClickSwipe Direction.right; ToggleCriteria "permanent";
                 Elapse 300] mounted) as [st|] eqn:Hrun.
  - exists st. split; [reflexivity|].
    destruct (saved_view_matches_count st) as (_ & _ & _ & Hcount);
      [by eexists | exact Hcount].
  - vm_compute in Hrun. discriminate.
Defined.

End Reachable.

Section Quiet.
Implicit Types (st s : State) (e : Event) (job : Job.t).

Ltac fields :=
  cbn [currentJobIndex animation savedJobs profile criteria searchTerm
       filteredJobs keyListener now timers setCurrentJobIndex setAnimation
       setSavedJobs setProfile setCriteria setSearchTerm setFilteredJobs
       setKeyListener setClock setTimeout closureOf cl_filteredJobs
       cl_currentJobIndex filterEffect] in *.

Lemma steady_clickSwipe d st :
  steady st →
  ∃ st', clickSwipe d st = Some st' ∧ steady st'
         ∧ filteredJobs st' = filteredJobs st.
Proof.
  intros (Hcur & Hpend & Hidx).
  destruct (lookup_lt_is_Some_2 _ _ Hidx) as [job Hjob].
  destruct (clickSwipe_phase1 d st job Hjob)
    as (st' & Hrun & _ & _ & Hi & Hfj & Hnow & Hts).
  exists st'. split; [done|]. split; [|done].
  split; [by apply (handleSwipe_listener (closureOf st) d st)|].
  split; [|by rewrite Hi, Hfj].
  unfold pendingUnder. rewrite Hts, Hnow, Hfj. apply Forall_app.
  split; [done|]. apply Forall_singleton. simpl. split; [done | lia].
Qed.

Lemma steady_step e st :
  leavesFilter e = true → steady st →
  ∃ st', step e st = Some st' ∧ steady st'
         ∧ filteredJobs st' = filteredJobs st.
Proof.
  intros Hquiet Hsteady. destruct e; try done; simpl.
  - by apply steady_clickSwipe.
  - destruct Hsteady as (Hcur & Hrest). unfold handleKeyPress. rewrite Hcur.
    destruct (String.eqb key "ArrowLeft");
      [by apply (steady_clickSwipe Direction.left)|].
    destruct (String.eqb key "ArrowRight");
      [by apply (steady_clickSwipe Direction.right)|].
    by exists st.
  - destruct Hsteady as (Hcur & Hpend & Hidx).
    exists (handleRemoveSaved jobId st). split; [done|]. split; [|done].
    split; [exact Hcur|]. split; [exact Hpend | exact Hidx].
  - destruct Hsteady as (Hcur & Hpend & Hidx).
    destruct (elapse_advances (filteredJobs st) d st Hpend Hidx)
      as (Hpend' & Hfj & Hidx' & _).
    exists (elapse d st). split; [done|]. split; [|done].
    split; [by apply elapse_listener|]. by rewrite Hfj.
Qed.

(** While no filter input is touched the deck cannot break: from a state
    with a valid index, an up-to-date key listener and no callback left
    over from another sequence (the mounted component is one), every run
    of swipes by button or key, removals and waits returns a state, with
    the same filtered sequence and an index within it. *)
Theorem deck_safe_without_filter_changes es :
  ∀ st,
    Forall (fun e => leavesFilter e = true) es →
    steady st →
    ∃ st', run es st = Some st'
      ∧ filteredJobs st' = filteredJobs st
      ∧ currentJobIndex st' < length (filteredJobs st')
      ∧ is_Some (currentJob st').
Proof.
  induction es as [|e es IH]; intros st Hall Hsteady; simpl.
  - exists st. destruct Hsteady as (_ & _ & Hidx).
    split; [done|]. split; [done|]. split; [done|].
    by apply lookup_lt_is_Some_2.
  - apply Forall_cons in Hall as [He Hall].
    destruct (steady_step e st He Hsteady) as (st1 & -> & Hsteady1 & Hfj1).
    simpl. destruct (IH st1 Hall Hsteady1) as (st' & Hrun & Hfj & Hrest).
    exists st'. split; [done|]. split; [congruence | done].
Qed.

Lemma deck_safe_without_filter_changes_witness :
  ∃ st',
    run [KeyDown "ArrowRight"; ClickSwipe Direction.left; Elapse 50;
         KeyDown "ArrowRight"; RemoveSaved 1; Elapse 1000;
         KeyDown "Enter"; ClickSwipe Direction.right] mounted = Some st'
    ∧ is_Some (currentJob st').
Proof.
  destruct (deck_safe_without_filter_changes
              [KeyDown "ArrowRight"; ClickSwipe Direction.left; Elapse 50;
               KeyDown "ArrowRight"; RemoveSaved 1; Elapse 1000;
               KeyDown "Enter"; ClickSwipe Direction.right] mounted)
    as (st' & Hrun & _ & _ & Hjob).
  - repeat constructor.
  - split; [reflexivity|]. split; [constructor|]. vm_compute. lia.
  - exists st'. split; [exact Hrun | exact Hjob].
Defined.

Lemma step_keeps_saved e st st' :
  maySave e = false → step e st = Some st' → savedJobs st' = savedJobs st.
Proof.
  intros Hno Hstep.
  assert (Hleft : ∀ cl, handleSwipe cl Direction.left st = Some st' →
                        savedJobs st' = savedJobs st).
  { intros cl Hrun.
    destruct (handleSwipe_inv _ _ _ _ Hrun)
      as [->|(saved & -> & [->|(? & _)])]; done. }
  destruct e; simpl in Hno, Hstep; try done.
  - destruct direction; [by apply (Hleft (closureOf st)) | done].
  - unfold handleKeyPress in Hstep. rewrite Hno in Hstep.
    destruct (String.eqb key "ArrowLeft");
      [by apply (Hleft (keyListener st)) | by simplify_eq].
  - simplify_eq.
    change (toggleCriteria id st)
      with (rerender st (setCriteria (toggled id (criteria st)) st)).
    by destruct (rerender_fields st
                   (setCriteria (toggled id (criteria st)) st))
      as (_ & -> & _).
  - destruct (handleDragEnd_inv _ _ _ _ Hstep)
      as [[_ ->]|(_ & items & _ & ->)]; [done|].
    by destruct (rerender_fields st (setCriteria items st)) as (_ & -> & _).
  - simplify_eq. unfold onSearchChange.
    destruct (String.eqb value (searchTerm st)); [done|].
    by destruct (rerender_fields st (setSearchTerm value st)) as (_ & -> & _).
  - simplify_eq. unfold onMinSalaryChange.
    by match goal with
       | |- savedJobs (rerender ?p ?s) = _ =>
           destruct (rerender_fields p s) as (_ & -> & _)
       end.
  - simplify_eq. unfold onMaxDistanceChange.
    by match goal with
       | |- savedJobs (rerender ?p ?s) = _ =>
           destruct (rerender_fields p s) as (_ & -> & _)
       end.
  - simplify_eq. unfold onRemoteOnlyChange.
    by match goal with
       | |- savedJobs (rerender ?p ?s) = _ =>
           destruct (rerender_fields p s) as (_ & -> & _)
       end.
  - simplify_eq. by destruct (elapse_fields d st) as (_ & _ & _ & -> & _).
Qed.

(** Only a swipe to the right, ArrowRight and the remove button write the
    Saved Set: a run of any other events (toggles, drags, search and
    preference changes, swipes to the left, waits) leaves the Saved Set
    and the saved view as they were. *)
Theorem saved_set_survives es :
  ∀ st st',
    Forall (fun e => maySave e = false) es →
    run es st = Some st' →
    savedJobs st' = savedJobs st ∧ savedJobsList st' = savedJobsList st.
Proof.
  assert (Hsaved : ∀ st st',
            Forall (fun e => maySave e = false) es →
            run es st = Some st' → savedJobs st' = savedJobs st).
  { induction es as [|e es IH]; intros st st' Hall Hrun; simpl in Hrun.
    - by simplify_eq.
    - apply Forall_cons in Hall as [He Hall].
      destruct (step e st) as [st1|] eqn:Hstep; [|done]. simpl in Hrun.
      rewrite (IH st1 st' Hall Hrun). by apply (step_keeps_saved e). }
  intros st st' Hall Hrun. pose proof (Hsaved st st' Hall Hrun) as Heq.
  split; [done|]. unfold savedJobsList. by rewrite Heq.
Qed.

Lemma saved_set_survives_witness :
  ∃ st1 st2,
    clickSwipe Direction.right mounted = Some st1
    ∧ run [ToggleCriteria "permanent"; SearchChange "zzz"; Elapse 300;
           KeyDown "ArrowLeft"; DragEnd "temporary" "internship"] st1
      = Some st2
    ∧ savedJobs st2 = savedJobs st1.
Proof.
  destruct (clickSwipe Direction.right mounted) as [st1|] eqn:Hrun1;
    [|vm_compute in Hrun1; discriminate].
  destruct (run [ToggleCriteria "permanent"; SearchChange "zzz"; Elapse 300;
                 KeyDown "ArrowLeft"; DragEnd "temporary" "internship"] st1)
    as [st2|] eqn:Hrun2.
  - exists st1, st2. split; [reflexivity|]. split; [exact Hrun2|].
    destruct (saved_set_survives
                [ToggleCriteria "permanent"; SearchChange "zzz"; Elapse 300;
                 KeyDown "ArrowLeft"; DragEnd "temporary" "internship"]
                st1 st2) as [Heq _].
    + repeat constructor.
    + exact Hrun2.
    + exact Heq.
  - exfalso. vm_compute in Hrun1. injection Hrun1 as <-.
    vm_compute in Hrun2. discriminate.
Defined.

(** Saving and removing undo each other: after a swipe to the right the
    item on screen is marked as saved and its identifier is in the Saved
    Set at once; removing that identifier takes it out again, leaves the
    Saved Set as it was before the swipe if the item had not been saved,
    and removing a second time changes nothing more. *)
Theorem save_then_remove st job :
  currentJob st = Some job →
  ∃ st1,
    clickSwipe Direction.right st = Some st1
    ∧ isSaved st1 = true
    ∧ Job.id job ∈ savedJobs st1
    ∧ isSaved (handleRemoveSaved (Job.id job) st1) = false
    ∧ savedJobs (handleRemoveSaved (Job.id job) st1)
      = savedJobs st ∖ {[Job.id job]}
    ∧ (Job.id job ∉ savedJobs st →
       savedJobs (handleRemoveSaved (Job.id job) st1) = savedJobs st)
    ∧ handleRemoveSaved (Job.id job) (handleRemoveSaved (Job.id job) st1)
      = handleRemoveSaved (Job.id job) st1.
Proof.
  intros Hjob.
  destruct (clickSwipe_phase1 Direction.right st job Hjob)
    as (st1 & Hrun & _ & Hsaved & Hi & Hfj & _).
  simpl in Hsaved.
  assert (Hjob1 : currentJob st1 = Some job).
  { unfold currentJob. by rewrite Hfj, Hi. }
  exists st1. split; [done|].
  assert (Hin : Job.id job ∈ savedJobs st1) by (rewrite Hsaved; set_solver).
  split; [|split; [done|]].
  { unfold isSaved. rewrite Hjob1. by apply bool_decide_eq_true. }
  split; [|split; [|split]].
  - unfold isSaved, currentJob, handleRemoveSaved. fields.
    unfold currentJob in Hjob1. rewrite Hjob1.
    apply bool_decide_eq_false. set_solver.
  - unfold handleRemoveSaved. fields. rewrite Hsaved. set_solver.
  - intros Hnot. unfold handleRemoveSaved. fields. rewrite Hsaved. set_solver.
  - unfold handleRemoveSaved, setSavedJobs. fields.
    replace (savedJobs st1 ∖ {[Job.id job]} ∖ {[Job.id job]})
      with (savedJobs st1 ∖ {[Job.id job]}) by set_solver.
    reflexivity.
Qed.

Lemma save_then_remove_witness :
  ∃ st1,
    clickSwipe Direction.right mounted = Some st1
    ∧ savedJobs (handleRemoveSaved 1 st1) = savedJobs mounted.
Proof.
  destruct (save_then_remove mounted
              (Job.mk 1 "Senior Frontend Developer" "TechCorp Inc."
                 "San Francisco, CA" "Permanent" "$120,000 - $180,000"
                 "Looking for an experienced frontend developer with React expertise to join our dynamic team."
                 [ "5+ years of React experience"; "Strong TypeScript skills";
                   "Experience with modern CSS frameworks";
                   "Understanding of web performance optimization" ]
                 "https://images.unsplash.com/photo-1497366216548-37526070297c?auto=format&fit=crop&w=800"
                 "2024-03-10"))
    as (st1 & Hrun & _ & _ & _ & _ & Hback & _).
  - reflexivity.
  - exists st1. split; [exact Hrun|]. apply Hback.
    simpl. apply not_elem_of_empty.
Defined.

End Quiet.

(** * The view switches *)

Section Views.
Implicit Types (v : View) (b : HeaderButton).

(** Each header button decides the screen on its own: the profile and
    settings buttons always lead to their view, the saved-jobs button
    leads to the deck when its switch was on and to the saved view
    otherwise; after any click at most one switch is on; the deck is
    reached by the saved-jobs button only, so from the profile or the
    settings view it is two clicks away, through the saved view. *)
Theorem header_buttons_switch_views v :
  screen (onProfileClick v) = ProfileView
  ∧ screen (onSettingsClick v) = SettingsView
  ∧ screen (onSavedJobsClick v)
    = (if showSavedJobs v then DeckView else SavedJobsView)
  ∧ (∀ b, length (List.filter (fun x => x)
                    [ showSavedJobs (click b v); showProfile (click b v);
                      showSettings (click b v) ]) ≤ 1)
  ∧ (∀ b, screen (click b v) = DeckView
          ↔ b = SavedJobsButton ∧ showSavedJobs v = true)
  ∧ (∀ b, b ≠ SavedJobsButton →
       screen (onSavedJobsClick (click b v)) = SavedJobsView
       ∧ screen (onSavedJobsClick (onSavedJobsClick (click b v))) = DeckView).
Proof.
  split; [done|]. split; [done|]. split; [|split; [|split]].
  - unfold screen, onSavedJobsClick. simpl. by destruct (showSavedJobs v).
  - intros []; simpl; [lia | lia |]. destruct (showSavedJobs v); simpl; lia.
  - intros []; unfold screen; simpl.
    + split; [done | by intros [? _]].
    + split; [done | by intros [? _]].
    + destruct (showSavedJobs v); simpl; split; try done.
      by intros [_ ?].
  - by intros [].
Qed.

Lemma header_buttons_switch_views_witness :
  screen (onSavedJobsClick (click ProfileButton initialView)) = SavedJobsView.
Proof.
  destruct (header_buttons_switch_views initialView)
    as (_ & _ & _ & _ & _ & Htwo).
  destruct (Htwo ProfileButton) as [Hsaved _]; [discriminate | exact Hsaved].
Defined.

End Views.

(** * Preferences and search refinement *)

Section Inputs.
Implicit Types (st : State) (job : Job.t) (s t : string).

Lemma matchesSalary_remoteOnly (prefs prefs' : JobPreferences.t) job :
  JobPreferences.remoteOnly prefs = JobPreferences.remoteOnly prefs' →
  matchesSalary prefs job = matchesSalary prefs' job.
Proof. intros Heq. unfold matchesSalary. by rewrite Heq. Qed.

Lemma filterJobs_remoteOnly jobs criteria searchTerm
    (prefs prefs' : JobPreferences.t) :
  JobPreferences.remoteOnly prefs = JobPreferences.remoteOnly prefs' →
  filterJobs jobs criteria searchTerm prefs
  = filterJobs jobs criteria searchTerm prefs'.
Proof.
  intros Heq. unfold filterJobs. apply filter_ext. intros job.
  by rewrite (matchesSalary_remoteOnly prefs prefs' job Heq).
Qed.

(** The minimum salary and the maximum distance are stored and never
    read by the filter: changing either leaves the filtered sequence and
    the Saved Set as they were, and still sends the cursor back to 0. *)
Theorem salary_and_distance_are_ignored st (value : Z) :
  inSync st →
  filteredJobs (onMinSalaryChange value st) = filteredJobs st
  ∧ filteredJobs (onMaxDistanceChange value st) = filteredJobs st
  ∧ currentJobIndex (onMinSalaryChange value st) = 0
  ∧ currentJobIndex (onMaxDistanceChange value st) = 0
  ∧ savedJobs (onMinSalaryChange value st) = savedJobs st
  ∧ savedJobs (onMaxDistanceChange value st) = savedJobs st.
Proof.
  intros Hsync. unfold onMinSalaryChange, onMaxDistanceChange.
  repeat split;
    match goal with
    | |- filteredJobs (rerender ?p ?s) = _ =>
        destruct (rerender_resets p s) as [_ ->]; rewrite Hsync;
        by apply filterJobs_remoteOnly
    | |- currentJobIndex (rerender ?p ?s) = _ => apply rerender_resets
    | |- savedJobs (rerender ?p ?s) = _ =>
        by destruct (rerender_fields p s) as (_ & -> & _)
    end.
Qed.

Lemma salary_and_distance_are_ignored_witness :
  filteredJobs (onMinSalaryChange 999999 mounted) = filteredJobs mounted.
Proof.
  destruct (salary_and_distance_are_ignored mounted 999999) as [Hfj _].
  - reflexivity.
  - exact Hfj.
Defined.

Lemma append_assoc' s t u : (s +:+ t) +:+ u = s +:+ (t +:+ u).
Proof.
  induction s as [|a s IH]; [done|]. rewrite !append_cons. by rewrite IH.
Qed.

Lemma includes_longer s pre t post :
  includes s (pre +:+ t +:+ post) = true → includes s t = true.
Proof.
  rewrite !includes_spec. intros (a & b & ->).
  exists (a +:+ pre), (post +:+ b). by rewrite !append_assoc'.
Qed.

Lemma filter_sublist_impl {A} (p q : A → bool) (l : list A) :
  (∀ x, p x = true → q x = true) →
  sublist (List.filter p l) (List.filter q l).
Proof.
  intros Himpl. induction l as [|x l IH]; simpl; [done|].
  destruct (p x) eqn:Hp.
  - rewrite (Himpl x Hp). by constructor.
  - destruct (q x); [by constructor | done].
Qed.

Lemma isAscii_append s t :
  isAscii (s +:+ t) = isAscii s && isAscii t.
Proof.
  induction s as [|a s IH]; [done|].
  rewrite append_cons. simpl. by rewrite IH, andb_assoc.
Qed.

(** Typing more narrows the deck. For a typed term of modelled text
    (code units below 128), every term contained in it is modelled text
    too, a listing of modelled text that matches the typed term matches
    the contained term, and on listings of modelled text the filtered
    sequence for the typed term is a subsequence of the one for the
    contained term. *)
Theorem longer_search_narrows pre term post :
  isAscii (pre +:+ term +:+ post) = true →
  isAscii term = true
  ∧ (∀ job, asciiListing job →
            matchesSearch (pre +:+ term +:+ post) job = true →
            matchesSearch term job = true)
  ∧ ∀ jobs criteria prefs,
      Forall asciiListing jobs →
      sublist (filterJobs jobs criteria (pre +:+ term +:+ post) prefs)
              (filterJobs jobs criteria term prefs).
Proof.
  intros Hascii.
  assert (Hjob : ∀ job, matchesSearch (pre +:+ term +:+ post) job = true →
                        matchesSearch term job = true).
  { intros job. unfold matchesSearch. rewrite !toLowerCase_append.
    rewrite !orb_true_iff.
    intros [[H|H]|H]; apply includes_longer in H; auto. }
  split; [|split].
  - rewrite !isAscii_append, !andb_true_iff in Hascii. tauto.
  - intros job _. apply Hjob.
  - intros jobs criteria prefs _. unfold filterJobs.
    apply filter_sublist_impl. intros job.
    rewrite !andb_true_iff. intros [[Ht Hs] Hp]. auto.
Qed.

Lemma longer_search_narrows_witness :
  matchesSearch "ev"
    (Job.mk 4 "DevOps Engineer" "CloudTech Solutions" "Remote" "Permanent"
       "$140,000 - $190,000" "" [] "" "") = true
  ∧ sublist
      (filterJobs DUMMY_JOBS INITIAL_CRITERIA "DevOps"
         (JobPreferences.mk 120000 50 false))
      (filterJobs DUMMY_JOBS INITIAL_CRITERIA "ev"
         (JobPreferences.mk 120000 50 false)).
Proof.
  destruct (longer_search_narrows "D" "ev" "Ops") as (_ & Hjob & Hdeck).
  - reflexivity.
  - split.
    + apply Hjob; [repeat split; reflexivity | vm_compute; reflexivity].
    + apply (Hdeck DUMMY_JOBS INITIAL_CRITERIA
               (JobPreferences.mk 120000 50 false)).
      apply listings_ascii.
Defined.

End Inputs.
